(** * TuyaWebMaster: the request signer, the session token and the device gateway

    A shallow embedding of [servidor-tuya-express.js].  The file follows the
    source: the platform the server stands on (strings, [crypto], plain
    JavaScript objects, [JSON.stringify], [qs] and [decodeURIComponent]),
    then the server's own functions ([validateConfig], [getToken],
    [encryptStr], [getRequestSign], [controlDevice], [getDeviceInfo], the
    route handlers, [startServer] and the timer), then their properties,
    then runs on concrete inputs.

    How the program is read.
    - A JavaScript string is a [string]: a sequence of 8-bit code units.  For
      ASCII text this is exact; other text is taken in its UTF-8 encoding,
      which is what [update(str, 'utf8')] feeds to the hash.
    - A 32-bit word of SHA-256 is a [Z] in [0, 2^32), wrap-around written out.
    - A plain object is the list of its properties in enumeration order.  The
      [query] argument of [getRequestSign], which the function writes to, is
      passed by reference into a store of objects; the other objects are
      never written to and are passed as values.
    - The module-level [token], the clock and the network are state: a
      function of the server is a computation that returns or throws and
      leaves a state with the trace of what it did.  An [await] is a bind;
      requests are run one at a time.
    - [qs] and [decodeURIComponent] are a parameter of the server's
      functions; [node] is a model of them to run examples on.
    - A number in a request to the relay is a rational; a number in a body
      sent to the provider, which has been through [Math.round], is an
      integer. *)

From Stdlib Require Import ZArith NArith QArith Qround List String Ascii Bool Lia.
From Stdlib Require Import DecimalString Permutation Sorted.
Import ListNotations.
Set Warnings "-register-all".
Close Scope Q_scope.
Local Open Scope list_scope.
Local Open Scope string_scope.

(* ================================================================== *)
(** * Strings *)

Definition bytes_of_string (s : string) : list Z :=
  map (fun c => Z.of_N (N_of_ascii c)) (list_ascii_of_string s).

(** [Array.prototype.join] on an array of strings. *)
Fixpoint join (sep : string) (xs : list string) : string :=
  match xs with
  | [] => ""
  | [x] => x
  | x :: rest => x ++ sep ++ join sep rest
  end.

(** [String.prototype.split] with a one-character separator: the pieces
    between the occurrences of [sep]; never the empty array. *)
Fixpoint split (sep : ascii) (s : string) : list string :=
  match s with
  | EmptyString => [""]
  | String c rest =>
      if Ascii.eqb c sep then "" :: split sep rest
      else match split sep rest with
           | [] => [String c ""]
           | piece :: pieces => String c piece :: pieces
           end
  end.

Definition map_string (f : ascii -> ascii) (s : string) : string :=
  string_of_list_ascii (map f (list_ascii_of_string s)).

Definition in_range (lo hi : N) (c : ascii) : bool :=
  (lo <=? N_of_ascii c)%N && (N_of_ascii c <=? hi)%N.

(** [toUpperCase] and [toLowerCase] on the ASCII letters. *)
Definition upper_ascii (c : ascii) : ascii :=
  if in_range 97 122 c then ascii_of_N (N_of_ascii c - 32) else c.

Definition lower_ascii (c : ascii) : ascii :=
  if in_range 65 90 c then ascii_of_N (N_of_ascii c + 32) else c.

Definition toUpperCase : string -> string := map_string upper_ascii.
Definition toLowerCase : string -> string := map_string lower_ascii.

(** JavaScript truthiness of a string: every string but [''] is truthy. *)
Definition truthy (s : string) : bool :=
  match s with EmptyString => false | _ => true end.

(** [Number.prototype.toString] on an integer, in decimal. *)
Definition string_of_N (n : N) : string := NilZero.string_of_uint (N.to_uint n).
Definition string_of_Z (z : Z) : string := NilZero.string_of_int (Z.to_int z).

(* ================================================================== *)
(** * [crypto]: SHA-256 and HMAC-SHA256 (FIPS 180-4, RFC 2104) *)

Module SHA256.
Local Open Scope Z_scope.
Local Open Scope list_scope.

Definition mask32 : Z := 0xffffffff.
Definition wrap (x : Z) : Z := x mod 2 ^ 32.
Definition add32 (x y : Z) : Z := wrap (x + y).
Definition rotr (n x : Z) : Z :=
  Z.lor (Z.shiftr x n) (wrap (Z.shiftl x (32 - n))).
Definition not32 (x : Z) : Z := Z.lxor x mask32.

Definition Ch (x y z : Z) : Z := Z.lxor (Z.land x y) (Z.land (not32 x) z).
Definition Maj (x y z : Z) : Z :=
  Z.lxor (Z.lxor (Z.land x y) (Z.land x z)) (Z.land y z).
Definition Sigma0 (x : Z) : Z := Z.lxor (Z.lxor (rotr 2 x) (rotr 13 x)) (rotr 22 x).
Definition Sigma1 (x : Z) : Z := Z.lxor (Z.lxor (rotr 6 x) (rotr 11 x)) (rotr 25 x).
Definition sigma0 (x : Z) : Z := Z.lxor (Z.lxor (rotr 7 x) (rotr 18 x)) (Z.shiftr x 3).
Definition sigma1 (x : Z) : Z := Z.lxor (Z.lxor (rotr 17 x) (rotr 19 x)) (Z.shiftr x 10).

(** The constants are the leading 32 bits of the fractional parts of the
    cube roots (for [K]) and square roots (for [H0]) of the first primes. *)
Definition is_prime (p : Z) : bool :=
  forallb (fun d => negb (p mod d =? 0)) (map Z.of_nat (seq 2 (Z.to_nat p - 2))).

Definition primes (below : nat) : list Z :=
  filter is_prime (map Z.of_nat (seq 2 (below - 2))).

(** The integer cube root, found bit by bit from the top. *)
Definition cube_root (n : Z) : Z :=
  fold_left (fun r bit => let r' := r + 2 ^ bit in if r' * r' * r' <=? n then r' else r)
            (map Z.of_nat (rev (seq 0 40))) 0.

Definition K : list Z :=
  Eval vm_compute in map (fun p => wrap (cube_root (p * 2 ^ 96))) (primes 312).

Definition H0 : list Z :=
  Eval vm_compute in map (fun p => wrap (Z.sqrt (p * 2 ^ 64))) (primes 20).

(** Big-endian bytes of a number, [n] of them. *)
Fixpoint be_bytes (n : nat) (x : Z) : list Z :=
  match n with
  | O => []
  | S m => be_bytes m (Z.shiftr x 8) ++ [Z.land x 0xff]
  end.

Definition be_word (bs : list Z) : Z :=
  fold_left (fun acc b => Z.lor (Z.shiftl acc 8) b) bs 0%Z.

(** Padding: a 1 bit, zeros up to 56 modulo 64, the bit length on 64 bits. *)
Definition pad (msg : list Z) : list Z :=
  let len := Z.of_nat (List.length msg) in
  msg ++ [0x80%Z]
      ++ repeat 0%Z (Z.to_nat ((55 - len) mod 64))
      ++ be_bytes 8 (8 * len).

Fixpoint chunks {A} (size count : nat) (l : list A) : list (list A) :=
  match count with
  | O => []
  | S c => firstn size l :: chunks size c (skipn size l)
  end.

Definition words_of_block (block : list Z) : list Z :=
  map be_word (chunks 4 16 block).

(** The message schedule, kept newest first while it grows. *)
Fixpoint extend (n : nat) (rev_w : list Z) : list Z :=
  match n with
  | O => rev_w
  | S m =>
      let w := add32 (add32 (sigma1 (nth 1 rev_w 0%Z)) (nth 6 rev_w 0%Z))
                     (add32 (sigma0 (nth 14 rev_w 0%Z)) (nth 15 rev_w 0%Z)) in
      extend m (w :: rev_w)
  end.

Definition schedule (block : list Z) : list Z :=
  rev (extend 48 (rev (words_of_block block))).

Record regs := Regs { ra : Z; rb : Z; rc : Z; rd : Z; re : Z; rf : Z; rg : Z; rh : Z }.

Definition round (r : regs) (kw : Z * Z) : regs :=
  let t1 := add32 (add32 (add32 (rh r) (Sigma1 (re r))) (Ch (re r) (rf r) (rg r)))
                  (add32 (fst kw) (snd kw)) in
  let t2 := add32 (Sigma0 (ra r)) (Maj (ra r) (rb r) (rc r)) in
  Regs (add32 t1 t2) (ra r) (rb r) (rc r) (add32 (rd r) t1) (re r) (rf r) (rg r).

Definition regs_of (h : list Z) : regs :=
  Regs (nth 0 h 0) (nth 1 h 0) (nth 2 h 0) (nth 3 h 0)
       (nth 4 h 0) (nth 5 h 0) (nth 6 h 0) (nth 7 h 0)%Z.

Definition list_of (r : regs) : list Z :=
  [ra r; rb r; rc r; rd r; re r; rf r; rg r; rh r].

Definition compress (h : list Z) (block : list Z) : list Z :=
  let r := fold_left round (combine K (schedule block)) (regs_of h) in
  map (fun p => add32 (fst p) (snd p)) (combine h (list_of r)).

Definition digest (msg : list Z) : list Z :=
  let padded := pad msg in
  let h := fold_left compress (chunks 64 (List.length padded / 64) padded) H0 in
  flat_map (be_bytes 4) h.

Definition hex_digit (n : Z) : ascii :=
  ascii_of_N (Z.to_N (if n <? 10 then 48 + n else 87 + n)).

(** [digest('hex')]: two lowercase hexadecimal digits per byte. *)
Definition hex (bs : list Z) : string :=
  string_of_list_ascii
    (flat_map (fun b => [hex_digit (Z.shiftr b 4); hex_digit (Z.land b 0xf)]) bs).

Definition block_size : nat := 64.

Definition hmac_key (key : list Z) : list Z :=
  let k := if (block_size <? List.length key)%nat then digest key else key in
  k ++ repeat 0%Z (block_size - List.length k).

Definition hmac (key msg : list Z) : list Z :=
  let k := hmac_key key in
  let inner := digest (map (Z.lxor 0x36) k ++ msg) in
  digest (map (Z.lxor 0x5c) k ++ inner).

End SHA256.

(** [crypto.createHash('sha256').update(s).digest('hex')] *)
Definition sha256_hex (s : string) : string :=
  SHA256.hex (SHA256.digest (bytes_of_string s)).

(** [crypto.createHmac('sha256', secret).update(s, 'utf8').digest('hex')] *)
Definition hmac_sha256_hex (secret s : string) : string :=
  SHA256.hex (SHA256.hmac (bytes_of_string secret) (bytes_of_string s)).

(* ================================================================== *)
(** * JavaScript values and plain objects *)

(** The values that travel through the relay: JSON values, plus
    [undefined].  Numbers that reach a request body have been through
    [Math.round] or are integer literals, so a number is a [Z]. *)
Inductive value : Type :=
| VUndefined
| VNull
| VBool (b : bool)
| VNum (z : Z)
| VStr (s : string)
| VArr (items : list value)
| VObj (props : list (string * value)).

(** JavaScript truthiness. *)
Definition truthy_value (v : value) : bool :=
  match v with
  | VUndefined | VNull => false
  | VBool b => b
  | VNum z => negb (z =? 0)%Z
  | VStr s => truthy s
  | VArr _ | VObj _ => true
  end.

(** A plain object: its own enumerable string-keyed properties, listed in
    the order [Object.keys] reports them (array indices first, in ascending
    numeric order, then the other keys in insertion order). *)
Definition object : Type := list (string * value).

Definition digit_of (c : ascii) : option N :=
  if in_range 48 57 c then Some (N_of_ascii c - 48)%N else None.

Fixpoint digits_value (acc : N) (s : string) : option N :=
  match s with
  | EmptyString => Some acc
  | String c rest =>
      match digit_of c with
      | Some d => digits_value (acc * 10 + d) rest
      | None => None
      end
  end.

(** An array index is a canonical decimal numeral below [2^32 - 1]. *)
Definition array_index (k : string) : option N :=
  match k with
  | EmptyString => None
  | _ =>
      match digits_value 0 k with
      | Some n =>
          if String.eqb (string_of_N n) k && (n <? 2 ^ 32 - 1)%N
          then Some n else None
      | None => None
      end
  end.

(** Whether a key that is new to an object is enumerated before the
    existing key [k']. *)
Definition comes_before (k k' : string) : bool :=
  match array_index k, array_index k' with
  | Some i, Some j => (i <? j)%N
  | Some _, None => true
  | None, _ => false
  end.

Fixpoint has (o : object) (k : string) : bool :=
  match o with
  | [] => false
  | (k', _) :: rest => String.eqb k k' || has rest k
  end.

Fixpoint get (o : object) (k : string) : option value :=
  match o with
  | [] => None
  | (k', v) :: rest => if String.eqb k k' then Some v else get rest k
  end.

(** [o[k]] as an expression: [undefined] when the property is missing. *)
Definition prop (o : object) (k : string) : value :=
  match get o k with Some v => v | None => VUndefined end.

Fixpoint update (o : object) (k : string) (v : value) : object :=
  match o with
  | [] => []
  | (k', v') :: rest =>
      if String.eqb k k' then (k', v) :: rest else (k', v') :: update rest k v
  end.

Fixpoint insert_new (o : object) (k : string) (v : value) : object :=
  match o with
  | [] => [(k, v)]
  | (k', v') :: rest =>
      if comes_before k k' then (k, v) :: o else (k', v') :: insert_new rest k v
  end.

(** [o[k] = v]: an existing property keeps its place, a new one is added. *)
Definition set (o : object) (k : string) (v : value) : object :=
  if has o k then update o k v else insert_new o k v.

Definition Object_keys (o : object) : list string := map fst o.

(** [Object.assign(target, source)]: every own property of [source] is read
    and written to [target], in order; the result is the target itself. *)
Definition Object_assign (target source : object) : object :=
  fold_left (fun acc k => set acc k (prop source k)) (Object_keys source) target.

(** [Array.prototype.sort()] without a comparator, on strings: ascending
    order of code units.  The units compared here are the 8-bit units of
    the UTF-8 text, JavaScript compares 16-bit units: the two orders are
    the same on ASCII text, and differ for a character beyond U+FFFF
    against one in U+E000..U+FFFF. *)
Fixpoint insert_sorted (x : string) (l : list string) : list string :=
  match l with
  | [] => [x]
  | y :: rest => if String.leb x y then x :: l else y :: insert_sorted x rest
  end.

Definition sort (l : list string) : list string := fold_right insert_sorted [] l.

Definition le_string (a b : string) : Prop := String.leb a b = true.

(* ================================================================== *)
(** * [JSON.stringify] *)

Definition LF : string := String (ascii_of_nat 10) "".
Definition DQUOTE : string := String (ascii_of_nat 34) "".
Definition BACKSLASH : string := String (ascii_of_nat 92) "".

Definition hex_nibble (n : N) : ascii :=
  ascii_of_N (if (n <? 10)%N then 48 + n else 87 + n)%N.

Definition json_char (c : ascii) : string :=
  let n := N_of_ascii c in
  if (n =? 34)%N then BACKSLASH ++ DQUOTE
  else if (n =? 92)%N then BACKSLASH ++ BACKSLASH
  else if (n =? 8)%N then BACKSLASH ++ "b"
  else if (n =? 9)%N then BACKSLASH ++ "t"
  else if (n =? 10)%N then BACKSLASH ++ "n"
  else if (n =? 12)%N then BACKSLASH ++ "f"
  else if (n =? 13)%N then BACKSLASH ++ "r"
  else if (n <? 32)%N
       then BACKSLASH ++ "u00" ++ String (hex_nibble (n / 16)) (String (hex_nibble (n mod 16)) "")
  else String c "".

Definition json_quote (s : string) : string :=
  DQUOTE ++ concat "" (map json_char (list_ascii_of_string s)) ++ DQUOTE.

(** [JSON.stringify(v)].  [None] is JavaScript's [undefined] result; an
    [undefined] member of an object is left out, an [undefined] item of an
    array is written [null]. *)
Fixpoint JSON_stringify (v : value) : option string :=
  match v with
  | VUndefined => None
  | VNull => Some "null"
  | VBool b => Some (if b then "true" else "false")
  | VNum z => Some (string_of_Z z)
  | VStr s => Some (json_quote s)
  | VArr items =>
      Some ("[" ++ join ","
                  (map (fun x => match JSON_stringify x with
                                 | Some s => s
                                 | None => "null"
                                 end) items)
                ++ "]")
  | VObj props =>
      Some ("{" ++ join ","
                  (flat_map (fun kv => match JSON_stringify (snd kv) with
                                       | Some s => [json_quote (fst kv) ++ ":" ++ s]
                                       | None => []
                                       end) props)
                ++ "}")
  end.

(* ================================================================== *)
(** * The platform under the signer: [qs] and [decodeURIComponent]

    [getRequestSign] calls two functions of the [qs] package and the
    built-in [decodeURIComponent].  The server's functions are written over
    a [Platform], so that what is proved of them holds whatever these three
    compute; [node] below is the platform used to run examples. *)

Record Platform : Type := {
  qs_parse : option string -> object;          (* [None]: [undefined] *)
  qs_stringify : object -> string;
  decodeURIComponent : string -> option string (* [None]: a URIError *)
}.

Module Uri.

Inductive token : Type :=
| Lit (c : ascii)
| Esc (b : N).

Definition hex_value (c : ascii) : option N :=
  let n := N_of_ascii c in
  if in_range 48 57 c then Some (n - 48)%N
  else if in_range 65 70 c then Some (n - 55)%N
  else if in_range 97 102 c then Some (n - 87)%N
  else None.

(** A [%] must be followed by two hexadecimal digits. *)
Fixpoint tokens (s : string) : option (list token) :=
  match s with
  | EmptyString => Some []
  | String c rest =>
      if Ascii.eqb c "%" then
        match rest with
        | String a (String b rest') =>
            match hex_value a, hex_value b with
            | Some x, Some y => option_map (cons (Esc (16 * x + y))) (tokens rest')
            | _, _ => None
            end
        | _ => None
        end
      else option_map (cons (Lit c)) (tokens rest)
  end.

(** The escaped octets that must follow an escaped lead octet, each with
    its allowed range: the well-formed UTF-8 sequences. *)
Definition continuation (lead : N) : option (list (N * N)) :=
  (if lead <? 0x80 then Some []
   else if (0xC2 <=? lead) && (lead <=? 0xDF) then Some [(0x80, 0xBF)]
   else if lead =? 0xE0 then Some [(0xA0, 0xBF); (0x80, 0xBF)]
   else if lead =? 0xED then Some [(0x80, 0x9F); (0x80, 0xBF)]
   else if (0xE1 <=? lead) && (lead <=? 0xEF) then Some [(0x80, 0xBF); (0x80, 0xBF)]
   else if lead =? 0xF0 then Some [(0x90, 0xBF); (0x80, 0xBF); (0x80, 0xBF)]
   else if lead =? 0xF4 then Some [(0x80, 0x8F); (0x80, 0xBF); (0x80, 0xBF)]
   else if (0xF1 <=? lead) && (lead <=? 0xF3)
        then Some [(0x80, 0xBF); (0x80, 0xBF); (0x80, 0xBF)]
   else None)%N.

Fixpoint well_formed (pending : list (N * N)) (ts : list token) : bool :=
  match ts with
  | [] => match pending with [] => true | _ => false end
  | Lit _ :: rest => match pending with [] => well_formed [] rest | _ => false end
  | Esc b :: rest =>
      match pending with
      | [] => match continuation b with
              | Some p => well_formed p rest
              | None => false
              end
      | (lo, hi) :: p => (lo <=? b)%N && (b <=? hi)%N && well_formed p rest
      end
  end.

Definition char_of (t : token) : ascii :=
  match t with Lit c => c | Esc b => ascii_of_N b end.

(** [decodeURIComponent]: every escape is decoded; a malformed escape or
    escaped octets that are not UTF-8 raise a URIError. *)
Definition decode (s : string) : option string :=
  match tokens s with
  | Some ts =>
      if well_formed [] ts then Some (string_of_list_ascii (map char_of ts)) else None
  | None => None
  end.

Definition unreserved (c : ascii) : bool :=
  in_range 48 57 c || in_range 65 90 c || in_range 97 122 c
  || Ascii.eqb c "-" || Ascii.eqb c "." || Ascii.eqb c "_" || Ascii.eqb c "~".

Definition upper_nibble (n : N) : ascii :=
  ascii_of_N (if (n <? 10)%N then 48 + n else 55 + n)%N.

(** The encoder of [qs]: everything but the unreserved characters is
    percent-encoded, octet by octet. *)
Definition encode_char (c : ascii) : string :=
  if unreserved c then String c ""
  else let n := N_of_ascii c in
       String "%" (String (upper_nibble (n / 16)) (String (upper_nibble (n mod 16)) "")).

Definition encode (s : string) : string :=
  concat "" (map encode_char (list_ascii_of_string s)).

End Uri.

(** The [qs] package with its default options, for flat parameters: names
    in which no bracket group [[...]] occurs.  (A bracketed name makes the
    package build nested objects; here it stays a flat name.) *)
Module Qs.

Definition plus_to_space (c : ascii) : ascii := if Ascii.eqb c "+" then " "%char else c.

(** The default decoder: [+] is a space; text that cannot be decoded is
    kept as it is. *)
Definition decoder (s : string) : string :=
  let without_plus := map_string plus_to_space s in
  match Uri.decode without_plus with
  | Some d => d
  | None => without_plus
  end.

(** [%5B] and [%5D] are brackets before anything else is looked at. *)
Fixpoint clean (s : string) : string :=
  match s with
  | EmptyString => EmptyString
  | String c rest =>
      match rest with
      | String d (String e rest') =>
          if Ascii.eqb c "%" && Ascii.eqb d "5" && (Ascii.eqb e "B" || Ascii.eqb e "b")
          then String "[" (clean rest')
          else if Ascii.eqb c "%" && Ascii.eqb d "5" && (Ascii.eqb e "D" || Ascii.eqb e "d")
          then String "]" (clean rest')
          else String c (clean rest)
      | _ => String c (clean rest)
      end
  end.

Definition parse_part (part : string) : string * value :=
  let pos := match index 0 "]=" part with
             | Some i => Some (S i)
             | None => index 0 "=" part
             end in
  match pos with
  | None => (decoder part, VStr "")
  | Some p =>
      (decoder (substring 0 p part),
       VStr (decoder (substring (S p) (String.length part - S p) part)))
  end.

(** A repeated name collects its values in an array. *)
Definition combine (old new : value) : value :=
  match old with
  | VArr items => VArr (items ++ [new])
  | _ => VArr [old; new]
  end.

Definition parameterLimit : nat := 1000.

Definition parseValues (str : string) : object :=
  fold_left
    (fun acc part =>
       let (key, val) := parse_part part in
       if has acc key then set acc key (combine (prop acc key) val)
       else set acc key val)
    (firstn parameterLimit (split "&" (clean str))) [].

Definition Object_prototype_names : list string :=
  [ "constructor"; "__defineGetter__"; "__defineSetter__"; "hasOwnProperty";
    "__lookupGetter__"; "__lookupSetter__"; "isPrototypeOf"; "propertyIsEnumerable";
    "toString"; "valueOf"; "__proto__"; "toLocaleString" ].

(** A parameter without a name, or named like a member of
    [Object.prototype], is dropped. *)
Definition kept (key : string) : bool :=
  truthy key && negb (existsb (String.eqb key) Object_prototype_names).

Definition parse (str : option string) : object :=
  match str with
  | None => []
  | Some EmptyString => []
  | Some s =>
      let tempObj := parseValues s in
      fold_left (fun obj key => if kept key then set obj key (prop tempObj key) else obj)
                (Object_keys tempObj) []
  end.

Definition pair (prefix text : string) : string :=
  Uri.encode prefix ++ "=" ++ Uri.encode text.

(** One [name=value] per leaf; items of an array and members of an object
    extend the name with [[index]] or [[key]]. *)
Fixpoint stringify_value (prefix : string) (v : value) : list string :=
  match v with
  | VUndefined => []
  | VNull => [pair prefix ""]
  | VBool b => [pair prefix (if b then "true" else "false")]
  | VNum z => [pair prefix (string_of_Z z)]
  | VStr s => [pair prefix s]
  | VArr items =>
      (fix each (i : N) (l : list value) : list string :=
         match l with
         | [] => []
         | x :: rest =>
             stringify_value (prefix ++ "[" ++ string_of_N i ++ "]") x
               ++ each (i + 1)%N rest
         end)%list 0%N items
  | VObj props =>
      flat_map (fun kv => stringify_value (prefix ++ "[" ++ fst kv ++ "]") (snd kv)) props
  end.

Definition stringify (o : object) : string :=
  join "&" (flat_map (fun kv => stringify_value (fst kv) (snd kv)) o).

End Qs.

(** ** Query strings written out from a list of parameters *)

(** The characters with a meaning of their own in a path or for [qs]. *)
Definition special (c : ascii) : bool :=
  existsb (Ascii.eqb c) ["&"; "="; "%"; "+"; "["; "]"; "?"]%char.

Fixpoint plain (s : string) : bool :=
  match s with
  | EmptyString => true
  | String c rest => negb (special c) && plain rest
  end.

(** No character of [s] is [x]. *)
Fixpoint avoids (x : ascii) (s : string) : bool :=
  match s with
  | EmptyString => true
  | String c rest => negb (Ascii.eqb c x) && avoids x rest
  end.

(** [name=value&name=value...] *)
Definition query_string (ps : list (string * string)) : string :=
  join "&" (map (fun kv => fst kv ++ "=" ++ snd kv) ps).

(** A parameter that [qs] reads back as it is written. *)
Definition readable (kv : string * string) : Prop :=
  plain (fst kv) = true /\ plain (snd kv) = true /\ Qs.kept (fst kv) = true.

Fixpoint lookup (ps : list (string * string)) (k : string) : option string :=
  match ps with
  | [] => None
  | (k', v) :: rest => if String.eqb k k' then Some v else lookup rest k
  end.

Definition node : Platform :=
  {| qs_parse := Qs.parse; qs_stringify := Qs.stringify; decodeURIComponent := Uri.decode |}.

(* ================================================================== *)
(** * The relay's state and its effects *)

(** [config], read from the environment at start-up. *)
Record Config : Type := {
  host : string;
  accessKey : string;
  secretKey : string;
  deviceId : string
}.

(** What a JavaScript [throw] carries here. *)
Inductive exn : Type :=
| Error (message : string)        (* [new Error(message)] *)
| TypeError (message : string)    (* a property read on [null] or [undefined] *)
| URIError                        (* from [decodeURIComponent] *)
| AxiosError (message : string).  (* the transport failed: timeout, DNS, reset, status *)

(** An outbound call of [httpClient]. *)
Record Request : Type := {
  req_method : string;
  req_url : string;
  req_headers : list (string * string);
  req_data : option value
}.

(** The provider's response envelope [{success, result, msg}].  Of [result]
    the relay reads [access_token] only; [None] stands for an envelope
    without a [result].  An envelope whose [result] is there without an
    [access_token] in it, after which [getToken] would hold [undefined]
    for a token, is not among these replies. *)
Record Envelope : Type := {
  success : bool;
  msg : string;
  access_token : option string
}.

(** How a call of [httpClient] ends: the promise is rejected, or it is
    fulfilled with the response's [data] ([None]: no data at all). *)
Inductive Reply : Type :=
| Failed (message : string)
| Answered (data : option Envelope).

(** What the relay is observed to do.  Entering [getToken] and
    [getRequestSign] is recorded next to the calls that leave the process;
    console output is not. *)
Inductive Event : Type :=
| Enter_getToken
| Enter_getRequestSign
| Sent (r : Request).

Definition loc : Type := nat.

(** The mutable state: the module-level [token], the objects that are
    passed by reference, the number of [Date.now()] readings so far and
    the events so far, oldest first. *)
Record World : Type := {
  token : string;
  heap : list object;
  reads : nat;
  trace : list Event
}.

(** What the relay does not control: the clock and the provider. *)
Record Env : Type := {
  Date_now : nat -> N;
  upstream : list Event -> Request -> Reply
}.

Inductive Outcome (A : Type) : Type :=
| Return (a : A)
| Throw (e : exn).
Arguments Return {A} a.
Arguments Throw {A} e.

(** A computation: it ends by returning or throwing, and the state it
    reached stays either way. *)
Definition M (A : Type) : Type := World -> Outcome A * World.

Definition ret {A} (a : A) : M A := fun w => (Return a, w).

Definition bind {A B} (m : M A) (k : A -> M B) : M B :=
  fun w => match m w with
           | (Return a, w') => k a w'
           | (Throw e, w') => (Throw e, w')
           end.

Definition throw {A} (e : exn) : M A := fun w => (Throw e, w).

(** [try { m } catch (error) { handler(error) }] *)
Definition try_catch {A} (m : M A) (handler : exn -> M A) : M A :=
  fun w => match m w with
           | (Return a, w') => (Return a, w')
           | (Throw e, w') => handler e w'
           end.

Declare Scope relay_scope.
Delimit Scope relay_scope with relay.
Notation "x <- m ;; k" := (bind m (fun x => k))
  (at level 100, m at next level, right associativity) : relay_scope.
Notation "m ;; k" := (bind m (fun _ => k))
  (at level 100, right associativity) : relay_scope.
Local Open Scope relay_scope.

Definition with_token (tk : string) (w : World) : World :=
  {| token := tk; heap := heap w; reads := reads w; trace := trace w |}.

Definition read_token : M string := fun w => (Return (token w), w).

Definition write_token (tk : string) : M unit :=
  fun w => (Return tt, {| token := tk; heap := heap w; reads := reads w; trace := trace w |}).

Definition record (e : Event) : M unit :=
  fun w => (Return tt,
            {| token := token w; heap := heap w; reads := reads w; trace := trace w ++ [e] |}).

(** [{...}] as an expression: a new object, known by its reference. *)
Definition alloc (o : object) : M loc :=
  fun w => (Return (List.length (heap w)),
            {| token := token w; heap := heap w ++ [o]; reads := reads w; trace := trace w |}).

Definition deref_in (h : list object) (l : loc) : object := nth l h [].

Fixpoint store_in (h : list object) (l : loc) (o : object) : list object :=
  match h, l with
  | [], _ => []
  | _ :: rest, O => o :: rest
  | x :: rest, S l' => x :: store_in rest l' o
  end.

Definition deref (l : loc) : M object := fun w => (Return (deref_in (heap w) l), w).

Definition store (l : loc) (o : object) : M unit :=
  fun w => (Return tt,
            {| token := token w; heap := store_in (heap w) l o;
               reads := reads w; trace := trace w |}).

(** [async function encryptStr(str, secret)] *)
Definition encryptStr (str secret : string) : string :=
  toUpperCase (hmac_sha256_hex secret str).

(** What [getRequestSign] returns. *)
Record Signed : Type := {
  sg_t : string;
  sg_path : string;
  sg_client_id : string;
  sg_sign : string;
  sg_sign_method : string;
  sg_access_token : string
}.

Definition headers_of (s : Signed) : list (string * string) :=
  [ ("t", sg_t s); ("path", sg_path s); ("client_id", sg_client_id s);
    ("sign", sg_sign s); ("sign_method", sg_sign_method s);
    ("access_token", sg_access_token s) ].

(** What a route handler answers: [res.status(...).json({success, message, ...})]. *)
Record Res : Type := {
  res_status : nat;
  res_success : bool;
  res_message : string
}.

(** [Math.round]: the nearest integer, a half going up. *)
Definition Math_round (x : Q) : Z := Qfloor (x + (1 # 2))%Q.

Definition Qltb (x y : Q) : bool := negb (Qle_bool y x).

(** The colour literals of the preset route. *)
Definition hsv (h s v : Z) : value := VObj [("h", VNum h); ("s", VNum s); ("v", VNum v)].

Definition presetColors : list (string * value) :=
  [ ("red", hsv 0 1000 1000);
    ("green", hsv 120 1000 1000);
    ("blue", hsv 240 1000 1000);
    ("yellow", hsv 60 1000 1000);
    ("purple", hsv 300 1000 1000);
    ("cyan", hsv 180 1000 1000);
    ("orange", hsv 30 1000 1000);
    ("pink", hsv 330 700 1000);
    ("white", hsv 0 0 1000) ].

(* ================================================================== *)
(** * A configuration, three providers and some states to run the server on *)

Definition demo_config : Config :=
  {| host := "https://openapi.tuyaus.com";
     accessKey := "access-key"; secretKey := "secret-key"; deviceId := "device-1" |}.

Definition granted : Envelope :=
  {| success := true; msg := "success"; access_token := Some "token-1" |}.

Definition refused : Envelope :=
  {| success := false; msg := "sign invalid"; access_token := None |}.

Definition clock (n : nat) : N := (1700000000000 + N.of_nat n)%N.

Definition granting : Env := {| Date_now := clock; upstream := fun _ _ => Answered (Some granted) |}.
Definition refusing : Env := {| Date_now := clock; upstream := fun _ _ => Answered (Some refused) |}.
Definition unreachable : Env :=
  {| Date_now := clock; upstream := fun _ _ => Failed "timeout of 10000ms exceeded" |}.

Definition cold : World := {| token := ""; heap := []; reads := 0; trace := [] |}.
Definition held : World := {| token := "token-0"; heap := []; reads := 0; trace := [] |}.

(** A state in which a caller's query object sits at reference 0. *)
Definition with_query (query : object) : World :=
  {| token := "token-0"; heap := [query]; reads := 0; trace := [] |}.

(* ================================================================== *)
(** * The server *)

Section Relay.

Variable platform : Platform.
Variable config : Config.
Variable env : Env.

(** [Date.now().toString()] *)
Definition now : M string :=
  fun w => (Return (string_of_N (Date_now env (reads w))),
            {| token := token w; heap := heap w; reads := S (reads w); trace := trace w |}).

(** [httpClient.get] and [httpClient.request]: the call leaves the
    process, then the promise settles. *)
Definition httpClient_request (r : Request) : M (option Envelope) :=
  fun w =>
    let w' := {| token := token w; heap := heap w; reads := reads w;
                 trace := trace w ++ [Sent r] |} in
    match upstream env (trace w) r with
    | Failed m => (Throw (AxiosError m), w')
    | Answered d => (Return d, w')
    end.

Definition token_url : string := "/v1.0/token?grant_type=1".

(** The headers [getToken] sends, for the reading [timestamp] of the clock. *)
Definition token_headers (timestamp : string) : list (string * string) :=
  let method := "GET" in
  let signUrl := token_url in
  let contentHash := sha256_hex "" in
  let stringToSign := join LF [method; contentHash; ""; signUrl] in
  let signStr := accessKey config ++ timestamp ++ stringToSign in
  [ ("t", timestamp);
    ("sign_method", "HMAC-SHA256");
    ("client_id", accessKey config);
    ("sign", encryptStr signStr (secretKey config)) ].

Definition token_request (timestamp : string) : Request :=
  {| req_method := "GET"; req_url := token_url;
     req_headers := token_headers timestamp; req_data := None |}.

(** [async function getToken()] *)
Definition getToken : M string :=
  try_catch
    (record Enter_getToken ;;
     timestamp <- now ;;
     login <- httpClient_request (token_request timestamp) ;;
     match login with
     | None => throw (TypeError "Cannot read properties of null (reading 'msg')")
     | Some l =>
         if negb (success l) then throw (Error ("fetch failed: " ++ msg l))
         else match access_token l with
              | None =>
                  throw (TypeError "Cannot read properties of undefined (reading 'access_token')")
              | Some tk => write_token tk ;; ret tk
              end
     end)
    (fun error => throw error).

(** [const [uri, pathQuery] = path.split('?')] *)
Definition uri_of (path : string) : string := nth 0 (split "?" path) "".
Definition pathQuery_of (path : string) : option string := nth_error (split "?" path) 1.

(** [sortedQuery]: the merged parameters, set key by key in sorted order. *)
Definition sortedQuery_of (queryMerged : object) : object :=
  fold_left (fun sortedQuery i => set sortedQuery i (prop queryMerged i))
            (sort (Object_keys queryMerged)) [].

Definition url_of (uri querystring : string) : string :=
  if truthy querystring then uri ++ "?" ++ querystring else uri.

(** A parameter that is [undefined] takes its default, [{}]. *)
Definition or_empty (body : value) : value :=
  match body with VUndefined => VObj [] | _ => body end.

(** [async function getRequestSign(path, method, headers = {}, query = {}, body = {})];
    [query] is the caller's object, by reference. *)
Definition getRequestSign (path method : string) (headers : object)
           (query : loc) (body : value) : M Signed :=
  record Enter_getRequestSign ;;
  t <- now ;;
  let uri := uri_of path in
  let pathQuery := pathQuery_of path in
  target <- deref query ;;
  let queryMerged := Object_assign target (qs_parse platform pathQuery) in
  store query queryMerged ;;
  let sortedQuery := sortedQuery_of queryMerged in
  match decodeURIComponent platform (qs_stringify platform sortedQuery) with
  | None => throw URIError
  | Some querystring =>
      let url := url_of uri querystring in
      match JSON_stringify (or_empty body) with
      | None => throw (TypeError "The data argument must be of type string")
      | Some json =>
          let contentHash := sha256_hex json in
          let stringToSign := join LF [method; contentHash; ""; url] in
          tok <- read_token ;;
          let signStr := accessKey config ++ tok ++ t ++ stringToSign in
          ret {| sg_t := t;
                 sg_path := url;
                 sg_client_id := accessKey config;
                 sg_sign := encryptStr signStr (secretKey config);
                 sg_sign_method := "HMAC-SHA256";
                 sg_access_token := tok |}
      end
  end.

(** [if (!token) { await getToken(); }], the guard that opens
    [controlDevice] and [getDeviceInfo]. *)
Definition ensureToken : M unit :=
  tok <- read_token ;;
  if negb (truthy tok) then (getToken ;; ret tt) else ret tt.

(** [if (!data || !data.success) throw ...; return data] *)
Definition checked (data : option Envelope) : M Envelope :=
  match data with
  | None => throw (TypeError "Cannot read properties of null (reading 'msg')")
  | Some d =>
      if negb (success d) then throw (Error ("request api failed: " ++ msg d))
      else ret d
  end.

Definition command_body (command : string) (val : value) : value :=
  VObj [("commands", VArr [VObj [("code", VStr command); ("value", val)]])].

(** [async function controlDevice(deviceId, command, value)] *)
Definition controlDevice (deviceId command : string) (val : value) : M Envelope :=
  try_catch
    (ensureToken ;;
     let body := command_body command val in
     let method := "POST" in
     let url := "/v1.0/devices/" ++ deviceId ++ "/commands" in
     query <- alloc [] ;;
     reqHeaders <- getRequestSign url method [] query body ;;
     data <- httpClient_request
               {| req_method := method; req_url := sg_path reqHeaders;
                  req_headers := headers_of reqHeaders; req_data := Some body |} ;;
     checked data)
    (fun error => throw error).

(** [async function getDeviceInfo(deviceId)] *)
Definition getDeviceInfo (deviceId : string) : M Envelope :=
  try_catch
    (ensureToken ;;
     let method := "GET" in
     let url := "/v1.0/devices/" ++ deviceId in
     query <- alloc [] ;;
     reqHeaders <- getRequestSign url method [] query (VObj []) ;;
     data <- httpClient_request
               {| req_method := method; req_url := sg_path reqHeaders;
                  req_headers := headers_of reqHeaders; req_data := None |} ;;
     checked data)
    (fun error => throw error).

Definition json (status : nat) (ok : bool) (message : string) : M Res :=
  ret {| res_status := status; res_success := ok; res_message := message |}.

(** [app.post('/token/refresh')] *)
Definition post_token_refresh : M Res :=
  try_catch
    (getToken ;; json 200 true "Token renovado exitosamente")
    (fun error => json 500 false "Error renovando token").

(** [app.post('/device/color/hsv')], on a body whose [h], [s] and [v]
    are numbers or missing. *)
Definition post_device_color_hsv (h s v : option Q) : M Res :=
  try_catch
    (match h, s, v with
     | Some h, Some s, Some v =>
         if Qltb h 0 || Qltb 360 h || Qltb s 0 || Qltb 1000 s || Qltb v 0 || Qltb 1000 v
         then json 400 false "Valores fuera de rango: h(0-360), s(0-1000), v(0-1000)"
         else
           controlDevice (deviceId config) "colour_data_v2"
                         (VObj [("h", VNum (Math_round h));
                                ("s", VNum (Math_round s));
                                ("v", VNum (Math_round v))]) ;;
           json 200 true "Color HSV cambiado exitosamente"
     | _, _, _ =>
         json 400 false "Faltan parámetros: h (0-360), s (0-1000), v (0-1000) son requeridos"
     end)
    (fun error => json 500 false "Error cambiando color HSV").

(** [app.post('/device/brightness')], on a body whose [brightness] is a
    number or missing. *)
Definition post_device_brightness (brightness : option Q) : M Res :=
  try_catch
    (match brightness with
     | None => json 400 false "Parámetro brightness (10-1000) es requerido"
     | Some brightness =>
         if Qltb brightness 10 || Qltb 1000 brightness
         then json 400 false "Brillo fuera de rango: debe estar entre 10 y 1000"
         else
           controlDevice (deviceId config) "bright_value_v2" (VNum (Math_round brightness)) ;;
           json 200 true "Brillo cambiado exitosamente"
     end)
    (fun error => json 500 false "Error cambiando brillo").

Definition invalid_color : string :=
  "Color no válido. Colores disponibles: " ++ join ", " (Object_keys presetColors).

(** [presetColors[name]] for a lower-case [name]: an own property of the
    table, or one of the two lower-case names that every object inherits,
    [constructor] (a function, which [JSON.stringify] treats as it treats
    [undefined]) and [__proto__] (an object without own properties). *)
Definition presetColors_at (name : string) : option value :=
  match get presetColors name with
  | Some colorData => Some colorData
  | None =>
      if String.eqb name "constructor" then Some VUndefined
      else if String.eqb name "__proto__" then Some (VObj [])
      else None
  end.

(** [app.post('/device/color/preset')], on a body whose [color] is any
    value, [VUndefined] when missing.  A value that is not a string has no
    [toLowerCase]: calling it throws, inside the [try]. *)
Definition post_device_color_preset (color : value) : M Res :=
  try_catch
    (if negb (truthy_value color) then json 400 false invalid_color
     else match color with
          | VStr color =>
              match presetColors_at (toLowerCase color) with
              | None => json 400 false invalid_color
              | Some colorData =>
                  controlDevice (deviceId config) "colour_data_v2" colorData ;;
                  json 200 true ("Color " ++ color ++ " aplicado exitosamente")
              end
          | _ => throw (TypeError "color.toLowerCase is not a function")
          end)
    (fun error => json 500 false "Error aplicando color predefinido").

(** The callback of [setInterval], every two hours. *)
Definition refresh_tick : M unit :=
  try_catch (getToken ;; ret tt) (fun error => ret tt).

(** ** What the properties speak of *)

(** A call of the token endpoint. *)
Definition is_exchange (e : Event) : bool :=
  match e with
  | Sent r => String.eqb (req_url r) token_url
  | _ => false
  end.

(** How many token exchanges a trace holds. *)
Definition exchanges (tr : list Event) : nat := List.length (filter is_exchange tr).

(** The token exchange that [getToken] would make from [w] fails: the
    transport fails, or no envelope comes back, or one with [success] false. *)
Definition exchange_fails (w : World) : Prop :=
  match upstream env (trace w ++ [Enter_getToken])
                 (token_request (string_of_N (Date_now env (reads w)))) with
  | Failed _ => True
  | Answered None => True
  | Answered (Some login) => success login = false
  end.

(** A number given in the request body lies outside [lo, hi]. *)
Definition outside (lo hi : Q) (x : option Q) : Prop :=
  match x with
  | Some x => (x < lo \/ hi < x)%Q
  | None => False
  end.

(* ================================================================== *)
(** * The rest of the server: configuration, start-up and the other routes *)

(** [process.env], as far as [config] reads it: a variable is a string, or
    is not set. *)
Record ProcessEnv : Type := {
  TUYA_HOST : option string;
  TUYA_ACCESS_KEY : option string;
  TUYA_SECRET_KEY : option string;
  TUYA_DEVICE_ID : option string
}.

(** [!!v], for a string [v] that may be [undefined]. *)
Definition given (v : option string) : bool :=
  match v with
  | Some s => truthy s
  | None => false
  end.

(** [v || fallback], for a string [v] that may be [undefined]. *)
Definition or_else (v : option string) (fallback : string) : string :=
  match v with
  | Some s => if truthy s then s else fallback
  | None => fallback
  end.

(** The [config] object built from [process.env].  A credential that is not
    set is [undefined] in the source and the empty string here: both are
    falsy, and the server reads the credentials as strings only after
    [validateConfig] has found all three. *)
Definition load (e : ProcessEnv) : Config :=
  {| host := or_else (TUYA_HOST e) "https://openapi.tuyaus.com";
     accessKey := or_else (TUYA_ACCESS_KEY e) "";
     secretKey := or_else (TUYA_SECRET_KEY e) "";
     deviceId := or_else (TUYA_DEVICE_ID e) "" |}.

(** The array [missing] of [validateConfig]. *)
Definition missing : list string :=
  (if negb (truthy (accessKey config)) then ["TUYA_ACCESS_KEY"] else [])
    ++ (if negb (truthy (secretKey config)) then ["TUYA_SECRET_KEY"] else [])
    ++ (if negb (truthy (deviceId config)) then ["TUYA_DEVICE_ID"] else []).

(** [function validateConfig()] *)
Definition validateConfig : bool :=
  if (0 <? List.length missing)%nat then false else true.

(** How [startServer] ends: the server listens, or the process exits. *)
Inductive Started : Type :=
| Listening
| Exited (code : nat).

(** [async function startServer()] *)
Definition startServer : M Started :=
  try_catch
    (if negb validateConfig then ret (Exited 1)
     else (getToken ;; ret Listening))
    (fun error => ret (Exited 1)).

(** What [GET /health] answers; [timestamp] is the reading of the clock,
    [environment] is left out. *)
Record Health : Type := {
  health_timestamp : string;
  hasToken : bool;
  hasAccessKey : bool;
  hasSecretKey : bool;
  hasDeviceId : bool;
  health_host : string
}.

(** [app.get('/health')] *)
Definition get_health : M Health :=
  timestamp <- now ;;
  tok <- read_token ;;
  ret {| health_timestamp := timestamp;
         hasToken := truthy tok;
         hasAccessKey := truthy (accessKey config);
         hasSecretKey := truthy (secretKey config);
         hasDeviceId := truthy (deviceId config);
         health_host := host config |}.

(** [app.post('/device/on')] *)
Definition post_device_on : M Res :=
  try_catch
    (controlDevice (deviceId config) "switch_led" (VBool true) ;;
     json 200 true "Dispositivo encendido")
    (fun error => json 500 false "Error encendiendo dispositivo").

(** [app.post('/device/off')] *)
Definition post_device_off : M Res :=
  try_catch
    (controlDevice (deviceId config) "switch_led" (VBool false) ;;
     json 200 true "Dispositivo apagado")
    (fun error => json 500 false "Error apagando dispositivo").

(** [value === undefined] *)
Definition is_undefined (v : value) : bool :=
  match v with VUndefined => true | _ => false end.

(** [app.post('/device/control')], on a body whose [command] and
    [deviceId] are strings or missing; [value] is any value, [VUndefined]
    when missing. *)
Definition post_device_control (command : option string) (val : value)
           (deviceId' : option string) : M Res :=
  try_catch
    (match command with
     | None => json 400 false "Faltan parámetros: command y value son requeridos"
     | Some command =>
         if negb (truthy command) || is_undefined val
         then json 400 false "Faltan parámetros: command y value son requeridos"
         else
           let targetDeviceId := or_else deviceId' (deviceId config) in
           controlDevice targetDeviceId command val ;;
           json 200 true "Comando enviado exitosamente"
     end)
    (fun error => json 500 false "Error controlando dispositivo").

(** [app.get('/device/info')] *)
Definition get_device_info : M Res :=
  try_catch
    (getDeviceInfo (deviceId config) ;;
     json 200 true "Información obtenida exitosamente")
    (fun error => json 500 false "Error obteniendo información del dispositivo").

(** [app.get('/device/:deviceId/info')] *)
Definition get_device_id_info (deviceId' : string) : M Res :=
  try_catch
    (getDeviceInfo deviceId' ;;
     json 200 true "Información obtenida exitosamente")
    (fun error => json 500 false "Error obteniendo información del dispositivo").

(** [app.post('/device/temperature')], on a body whose [temperature] is a
    number or missing. *)
Definition post_device_temperature (temperature : option Q) : M Res :=
  try_catch
    (match temperature with
     | None => json 400 false "Parámetro temperature (0-1000) es requerido"
     | Some temperature =>
         if Qltb temperature 0 || Qltb 1000 temperature
         then json 400 false "Temperatura fuera de rango: debe estar entre 0 y 1000"
         else
           controlDevice (deviceId config) "temp_value_v2" (VNum (Math_round temperature)) ;;
           json 200 true "Temperatura de color cambiada exitosamente"
     end)
    (fun error => json 500 false "Error cambiando temperatura de color").

Definition validModes : list string := ["white"; "colour"; "scene"; "music"].

(** [app.post('/device/mode')], on a body whose [mode] is a string or
    missing. *)
Definition post_device_mode (mode : option string) : M Res :=
  try_catch
    (match mode with
     | None => json 400 false "Parámetro mode es requerido (white, colour, scene, music)"
     | Some mode =>
         if negb (truthy mode)
         then json 400 false "Parámetro mode es requerido (white, colour, scene, music)"
         else if negb (existsb (String.eqb mode) validModes)
         then json 400 false ("Modo inválido. Modos válidos: " ++ join ", " validModes)
         else
           controlDevice (deviceId config) "work_mode" (VStr mode) ;;
           json 200 true "Modo cambiado exitosamente"
     end)
    (fun error => json 500 false "Error cambiando modo").

(** The routes that answer with [{success, message, ...}], each with what
    it reads from the request, whose body is an object. *)
Inductive Call : Type :=
| POST_device_on
| POST_device_off
| POST_device_control (command : option string) (val : value) (deviceId' : option string)
| GET_device_info
| GET_device_id_info (deviceId' : string)
| POST_token_refresh
| POST_device_color_hsv (h s v : option Q)
| POST_device_brightness (brightness : option Q)
| POST_device_temperature (temperature : option Q)
| POST_device_mode (mode : option string)
| POST_device_color_preset (color : value).

(** The router: the handler registered for a call. *)
Definition handle (c : Call) : M Res :=
  match c with
  | POST_device_on => post_device_on
  | POST_device_off => post_device_off
  | POST_device_control command val deviceId' => post_device_control command val deviceId'
  | GET_device_info => get_device_info
  | GET_device_id_info deviceId' => get_device_id_info deviceId'
  | POST_token_refresh => post_token_refresh
  | POST_device_color_hsv h s v => post_device_color_hsv h s v
  | POST_device_brightness brightness => post_device_brightness brightness
  | POST_device_temperature temperature => post_device_temperature temperature
  | POST_device_mode mode => post_device_mode mode
  | POST_device_color_preset color => post_device_color_preset color
  end.

(** Requests to the relay, served one after the other. *)
Fixpoint serve (calls : list Call) : M (list Res) :=
  match calls with
  | [] => ret []
  | c :: rest =>
      res <- handle c ;;
      answers <- serve rest ;;
      ret (res :: answers)
  end.

(** ** What the further properties speak of *)

(** What [controlDevice] and [getDeviceInfo] do once the guard is passed:
    sign, send, check the envelope. *)
Definition signed_call (method url : string) (body : value) (data : option value)
  : M Envelope :=
  query <- alloc [] ;;
  reqHeaders <- getRequestSign url method [] query body ;;
  data' <- httpClient_request
             {| req_method := method; req_url := sg_path reqHeaders;
                req_headers := headers_of reqHeaders; req_data := data |} ;;
  checked data'.

(** The requests in a trace, oldest first. *)
Definition requests (tr : list Event) : list Request :=
  flat_map (fun e => match e with Sent r => [r] | _ => [] end) tr.

(** One of [0-9A-F], and one of [0-9a-f]. *)
Definition upper_hex (c : ascii) : bool := in_range 48 57 c || in_range 65 70 c.
Definition lower_hex (c : ascii) : bool := in_range 48 57 c || in_range 97 102 c.

(** What the provider answers to the token exchange made from [w]. *)
Definition exchange_reply (w : World) : Reply :=
  upstream env (trace w ++ [Enter_getToken])
           (token_request (string_of_N (Date_now env (reads w)))).

(** A parameter whose name and value are made of unreserved characters
    (letters, digits, [-], [.], [_], [~]), and whose name [qs] keeps and is
    no array index. *)
Definition simple (kv : string * string) : bool :=
  forallb Uri.unreserved (list_ascii_of_string (fst kv))
  && forallb Uri.unreserved (list_ascii_of_string (snd kv))
  && Qs.kept (fst kv)
  && match array_index (fst kv) with None => true | Some _ => false end.

(** The parameters in the sorted order of their names. *)
Definition by_name (ps : list (string * string)) : list (string * string) :=
  map (fun k => (k, match lookup ps k with Some v => v | None => "" end))
      (sort (map fst ps)).

(** Text in which every character is ASCII. *)
Definition ascii_text (s : string) : bool :=
  forallb (fun c => (N_of_ascii c <? 128)%N) (list_ascii_of_string s).

(** [n] parameters [p0=1], [p1=1], ... *)
Definition numbered (n : nat) : list (string * string) :=
  map (fun i => ("p" ++ string_of_N (N.of_nat i), "1")) (seq 0 n).

(** A number lies in [lo, hi]. *)
Definition inside (lo hi : Z) (x : Q) : Prop := (inject_Z lo <= x /\ x <= inject_Z hi)%Q.

(* ================================================================== *)
(** * Properties *)

(** ** Plain objects *)

Lemma has_In (o : object) (k : string) : has o k = true <-> In k (Object_keys o).
Proof.
  induction o as [|[k' v'] o IH]; simpl.
  - split; [discriminate | tauto].
  - rewrite orb_true_iff, IH, String.eqb_eq. intuition congruence.
Qed.

Lemma get_has (o : object) (k : string) : get o k <> None <-> has o k = true.
Proof.
  induction o as [|[k' v'] o IH]; simpl.
  - split; [congruence | discriminate].
  - destruct (String.eqb k k'); simpl; [split; [reflexivity | discriminate] | exact IH].
Qed.

Lemma get_none (o : object) (k : string) : get o k = None <-> has o k = false.
Proof.
  pose proof (get_has o k) as H.
  destruct (get o k), (has o k); split; intro E; try reflexivity; try discriminate.
  - exfalso. assert (false = true) by (apply H; discriminate). discriminate.
  - exfalso. apply (proj2 H); reflexivity || assumption.
Qed.

Lemma get_prop (o : object) (k : string) : has o k = true -> get o k = Some (prop o k).
Proof.
  intro H. unfold prop. destruct (get o k) eqn:E; [reflexivity|].
  apply get_none in E. congruence.
Qed.

Lemma keys_update (o : object) (k : string) (v : value) :
  Object_keys (update o k v) = Object_keys o.
Proof.
  induction o as [|[k' v'] o IH]; simpl; [reflexivity|].
  destruct (String.eqb k k'); simpl; [reflexivity | now rewrite IH].
Qed.

Lemma keys_insert_new (o : object) (k : string) (v : value) :
  Permutation (Object_keys (insert_new o k v)) (k :: Object_keys o).
Proof.
  induction o as [|[k' v'] o IH]; simpl; [reflexivity|].
  destruct (comes_before k k'); simpl; [reflexivity|].
  rewrite IH. apply perm_swap.
Qed.

Lemma get_update (o : object) (k k' : string) (v : value) :
  has o k = true ->
  get (update o k v) k' = if String.eqb k' k then Some v else get o k'.
Proof.
  induction o as [|[k0 v0] o IH]; simpl; [discriminate|].
  destruct (String.eqb_spec k k0) as [->|Hk]; simpl.
  - intros _. destruct (String.eqb k' k0); reflexivity.
  - intro H. destruct (String.eqb_spec k' k0) as [->|Hk'].
    + destruct (String.eqb_spec k0 k); [congruence | reflexivity].
    + apply IH, H.
Qed.

Lemma get_insert_new (o : object) (k k' : string) (v : value) :
  has o k = false ->
  get (insert_new o k v) k' = if String.eqb k' k then Some v else get o k'.
Proof.
  induction o as [|[k0 v0] o IH]; simpl; [reflexivity|].
  destruct (String.eqb_spec k k0) as [->|Hk]; simpl; [discriminate|].
  intro H. destruct (comes_before k k0); simpl.
  - reflexivity.
  - destruct (String.eqb_spec k' k0) as [->|Hk'].
    + destruct (String.eqb_spec k0 k); [congruence | reflexivity].
    + apply IH, H.
Qed.

(** Writing a property makes it read back, and touches no other. *)
Lemma get_set (o : object) (k k' : string) (v : value) :
  get (set o k v) k' = if String.eqb k' k then Some v else get o k'.
Proof.
  unfold set. destruct (has o k) eqn:H; [apply get_update | apply get_insert_new]; exact H.
Qed.

Lemma keys_set (o : object) (k : string) (v : value) :
  Permutation (Object_keys (set o k v))
              (if has o k then Object_keys o else k :: Object_keys o).
Proof.
  unfold set. destruct (has o k); [rewrite keys_update; reflexivity | apply keys_insert_new].
Qed.

Lemma In_keys_set (o : object) (k k' : string) (v : value) :
  In k' (Object_keys (set o k v)) <-> k' = k \/ In k' (Object_keys o).
Proof.
  pose proof (keys_set o k v) as P. destruct (has o k) eqn:H.
  - apply has_In in H. split.
    + intro I. right. exact (Permutation_in _ P I).
    + intros [->|I]; apply (Permutation_in _ (Permutation_sym P)); assumption.
  - split.
    + intro I. destruct (Permutation_in _ P I) as [E|I']; [left; now symmetry | now right].
    + intros [->|I]; apply (Permutation_in _ (Permutation_sym P)); simpl; tauto.
Qed.

Lemma NoDup_keys_set (o : object) (k : string) (v : value) :
  NoDup (Object_keys o) -> NoDup (Object_keys (set o k v)).
Proof.
  intro N. pose proof (keys_set o k v) as P. destruct (has o k) eqn:H.
  - exact (Permutation_NoDup (Permutation_sym P) N).
  - apply (Permutation_NoDup (Permutation_sym P)). constructor; [|exact N].
    intro I. apply has_In in I. congruence.
Qed.

(** An update that writes what is already there changes nothing. *)
Lemma set_same (o : object) (k : string) (v : value) : get o k = Some v -> set o k v = o.
Proof.
  intro G. unfold set.
  assert (H : has o k = true) by (apply get_has; congruence). rewrite H. clear H.
  induction o as [|[k0 v0] o IH]; simpl in *; [reflexivity|].
  destruct (String.eqb k k0); [congruence | now rewrite IH].
Qed.

Lemma has_existsb (o : object) (k : string) :
  existsb (String.eqb k) (Object_keys o) = has o k.
Proof. induction o as [|[k' v'] o IH]; simpl; [reflexivity | now rewrite IH]. Qed.

(** Setting many keys, each to the value [f] gives it. *)
Lemma get_set_many (f : string -> value) (ks : list string) (o : object) (k' : string) :
  get (fold_left (fun acc k => set acc k (f k)) ks o) k'
  = if existsb (String.eqb k') ks then Some (f k') else get o k'.
Proof.
  revert o. induction ks as [|k ks IH]; intro o; simpl; [reflexivity|].
  rewrite IH, get_set.
  destruct (String.eqb_spec k' k) as [->|]; simpl; destruct (existsb _ ks); reflexivity.
Qed.

Lemma In_keys_set_many (f : string -> value) (ks : list string) (o : object) (k' : string) :
  In k' (Object_keys (fold_left (fun acc k => set acc k (f k)) ks o))
  <-> In k' ks \/ In k' (Object_keys o).
Proof.
  revert o. induction ks as [|k ks IH]; intro o; simpl; [tauto|].
  rewrite IH, In_keys_set. intuition congruence.
Qed.

Lemma NoDup_keys_set_many (f : string -> value) (ks : list string) (o : object) :
  NoDup (Object_keys o) ->
  NoDup (Object_keys (fold_left (fun acc k => set acc k (f k)) ks o)).
Proof.
  revert o. induction ks as [|k ks IH]; intros o N; simpl; [exact N|].
  apply IH, NoDup_keys_set, N.
Qed.

Lemma set_many_ext (f g : string -> value) (ks : list string) (o : object) :
  (forall k, In k ks -> f k = g k) ->
  fold_left (fun acc k => set acc k (f k)) ks o = fold_left (fun acc k => set acc k (g k)) ks o.
Proof.
  revert o. induction ks as [|k ks IH]; intros o E; simpl; [reflexivity|].
  rewrite (E k) by (left; reflexivity). apply IH. intros k' I. apply E. now right.
Qed.

(** [Object.assign]: a property of the source overrides the target's. *)
Lemma get_Object_assign (target source : object) (k : string) :
  get (Object_assign target source) k
  = if has source k then Some (prop source k) else get target k.
Proof. unfold Object_assign. now rewrite get_set_many, has_existsb. Qed.

Lemma In_keys_Object_assign (target source : object) (k : string) :
  In k (Object_keys (Object_assign target source))
  <-> In k (Object_keys source) \/ In k (Object_keys target).
Proof. apply In_keys_set_many. Qed.

Lemma NoDup_keys_Object_assign (target source : object) :
  NoDup (Object_keys target) -> NoDup (Object_keys (Object_assign target source)).
Proof. apply NoDup_keys_set_many. Qed.

(** A source whose properties the target already has, with the same
    values, leaves the target as it was. *)
Lemma Object_assign_same (target source : object) :
  (forall k, has source k = true -> get target k = Some (prop source k)) ->
  Object_assign target source = target.
Proof.
  unfold Object_assign. intro H.
  assert (G : forall ks, (forall k, In k ks -> get target k = Some (prop source k)) ->
                         fold_left (fun acc k => set acc k (prop source k)) ks target = target).
  { induction ks as [|k ks IH]; intro E; simpl; [reflexivity|].
    rewrite set_same by (apply E; now left). apply IH. intros k' I. apply E. now right. }
  apply G. intros k I. apply H, has_In, I.
Qed.

(** ** The order of strings and [sort] *)

Lemma ascii_compare_N (a b : ascii) :
  Ascii.compare a b = (N_of_ascii a ?= N_of_ascii b)%N.
Proof. reflexivity. Qed.

Lemma string_compare_lt_trans (a b c : string) :
  String.compare a b = Lt -> String.compare b c = Lt -> String.compare a c = Lt.
Proof.
  revert b c. induction a as [|x a IH]; intros [|y b] [|z c]; simpl; try congruence.
  rewrite !ascii_compare_N.
  destruct (N.compare_spec (N_of_ascii x) (N_of_ascii y)) as [E1|L1|G1]; try discriminate;
    destruct (N.compare_spec (N_of_ascii y) (N_of_ascii z)) as [E2|L2|G2]; try discriminate;
    intros H1 H2.
  - rewrite E1, E2, N.compare_refl. eapply IH; eassumption.
  - rewrite E1. now apply N.compare_lt_iff in L2 as ->.
  - rewrite <- E2. now apply N.compare_lt_iff in L1 as ->.
  - assert (L : (N_of_ascii x < N_of_ascii z)%N) by lia.
    now apply N.compare_lt_iff in L as ->.
Qed.

Lemma string_leb_trans (a b c : string) :
  String.leb a b = true -> String.leb b c = true -> String.leb a c = true.
Proof.
  unfold String.leb.
  destruct (String.compare a b) eqn:Eab; try discriminate;
    destruct (String.compare b c) eqn:Ebc; try discriminate; intros _ _.
  - apply String.compare_eq_iff in Eab. subst a. now rewrite Ebc.
  - apply String.compare_eq_iff in Eab. subst a. now rewrite Ebc.
  - apply String.compare_eq_iff in Ebc. subst c. now rewrite Eab.
  - now rewrite (string_compare_lt_trans _ _ _ Eab Ebc).
Qed.

Lemma insert_sorted_perm (x : string) (l : list string) :
  Permutation (insert_sorted x l) (x :: l).
Proof.
  induction l as [|y l IH]; simpl; [reflexivity|].
  destruct (String.leb x y); [reflexivity|].
  rewrite IH. apply perm_swap.
Qed.

Lemma sort_perm (l : list string) : Permutation (sort l) l.
Proof.
  induction l as [|x l IH]; simpl; [reflexivity|].
  rewrite insert_sorted_perm. now constructor.
Qed.

Lemma In_sort (l : list string) (x : string) : In x (sort l) <-> In x l.
Proof.
  split; apply Permutation_in; [apply sort_perm | apply Permutation_sym, sort_perm].
Qed.

Lemma insert_sorted_sorted (x : string) (l : list string) :
  StronglySorted le_string l -> StronglySorted le_string (insert_sorted x l).
Proof.
  induction 1 as [|y l S IH F]; simpl.
  - constructor; constructor.
  - destruct (String.leb x y) eqn:L.
    + constructor; [now constructor|]. constructor; [exact L|].
      eapply Forall_impl; [|exact F]. intros z Hz. eapply string_leb_trans; eassumption.
    + constructor; [exact IH|].
      apply (Permutation_Forall (Permutation_sym (insert_sorted_perm x l))).
      constructor; [|exact F].
      destruct (String.leb_total x y) as [H|H]; [congruence | exact H].
Qed.

Lemma sort_sorted (l : list string) : StronglySorted le_string (sort l).
Proof.
  induction l as [|x l IH]; simpl; [constructor | now apply insert_sorted_sorted].
Qed.

(** Two sorted arrangements of the same strings are the same list. *)
Lemma sorted_unique (l1 l2 : list string) :
  StronglySorted le_string l1 -> StronglySorted le_string l2 ->
  Permutation l1 l2 -> l1 = l2.
Proof.
  intro S1. revert l2. induction S1 as [|x l1 S1 IH F1]; intros l2 S2 P.
  - apply Permutation_nil in P. now subst.
  - destruct S2 as [|y l2 S2 F2].
    + apply Permutation_sym, Permutation_nil in P. discriminate.
    + assert (E : x = y).
      { assert (Ix : In x (y :: l2)) by (apply (Permutation_in _ P); now left).
        assert (Iy : In y (x :: l1))
          by (apply (Permutation_in _ (Permutation_sym P)); now left).
        destruct Ix as [->|Ix]; [reflexivity|].
        destruct Iy as [->|Iy]; [reflexivity|].
        apply String.leb_antisym.
        - rewrite Forall_forall in F1. apply F1, Iy.
        - rewrite Forall_forall in F2. apply F2, Ix. }
      subst y. f_equal. apply IH; [exact S2|]. eapply Permutation_cons_inv, P.
Qed.

(** [sort] forgets the order it was given. *)
Lemma sort_Permutation (l1 l2 : list string) : Permutation l1 l2 -> sort l1 = sort l2.
Proof.
  intro P. apply sorted_unique; try apply sort_sorted.
  rewrite !sort_perm. exact P.
Qed.

(** ** The canonical query *)

(** [sortedQuery] has the properties of [queryMerged], with their values. *)
Lemma get_sortedQuery_of (queryMerged : object) (k : string) :
  get (sortedQuery_of queryMerged) k = get queryMerged k.
Proof.
  unfold sortedQuery_of. rewrite get_set_many.
  assert (E : existsb (String.eqb k) (sort (Object_keys queryMerged)) = has queryMerged k).
  { rewrite <- has_existsb. apply eq_true_iff_eq.
    rewrite !existsb_exists. split; intros [x [I Hx]]; exists x; split; trivial;
      apply In_sort; exact I. }
  rewrite E. destruct (has queryMerged k) eqn:H.
  - symmetry. now apply get_prop.
  - symmetry. now apply get_none.
Qed.

(** [sortedQuery] depends on which properties [queryMerged] has and on
    their values, not on the order they were added in. *)
Lemma sortedQuery_of_ext (qm1 qm2 : object) :
  Permutation (Object_keys qm1) (Object_keys qm2) ->
  (forall k, get qm1 k = get qm2 k) ->
  sortedQuery_of qm1 = sortedQuery_of qm2.
Proof.
  intros P G. unfold sortedQuery_of. rewrite (sort_Permutation _ _ P).
  apply set_many_ext. intros k _. unfold prop. now rewrite G.
Qed.

Lemma In_keys_get (o : object) (k : string) : In k (Object_keys o) <-> get o k <> None.
Proof. now rewrite get_has, has_In. Qed.

Lemma sortedQuery_of_merged (query parsed1 parsed2 : object) :
  NoDup (Object_keys query) ->
  (forall k, get parsed1 k = get parsed2 k) ->
  sortedQuery_of (Object_assign query parsed1) = sortedQuery_of (Object_assign query parsed2).
Proof.
  intros N G.
  assert (H : forall k, has parsed1 k = has parsed2 k).
  { intro k. pose proof (get_has parsed1 k) as H1. pose proof (get_has parsed2 k) as H2.
    rewrite G in H1. destruct (has parsed1 k), (has parsed2 k); try reflexivity.
    - symmetry. apply H2, H1. reflexivity.
    - apply H1, H2. reflexivity. }
  apply sortedQuery_of_ext.
  - apply NoDup_Permutation; try (apply NoDup_keys_Object_assign; exact N).
    intro k. rewrite !In_keys_Object_assign, <- !has_In, H. reflexivity.
  - intro k. rewrite !get_Object_assign, H. unfold prop. now rewrite G.
Qed.

(** ** What one run of [getRequestSign] does *)

Lemma JSON_stringify_or_empty (body : value) :
  exists json, JSON_stringify (or_empty body) = Some json.
Proof. destruct body; simpl; eauto. Qed.

Lemma getRequestSign_run (path method : string) (headers : object) (query : loc)
      (body : value) (w : World) :
  let queryMerged :=
    Object_assign (deref_in (heap w) query) (qs_parse platform (pathQuery_of path)) in
  let w' := {| token := token w; heap := store_in (heap w) query queryMerged;
               reads := S (reads w); trace := trace w ++ [Enter_getRequestSign] |} in
  let t := string_of_N (Date_now env (reads w)) in
  getRequestSign path method headers query body w
  = match decodeURIComponent platform (qs_stringify platform (sortedQuery_of queryMerged)) with
    | None => (Throw URIError, w')
    | Some querystring =>
        match JSON_stringify (or_empty body) with
        | None => (Throw (TypeError "The data argument must be of type string"), w')
        | Some json =>
            (Return {| sg_t := t;
                       sg_path := url_of (uri_of path) querystring;
                       sg_client_id := accessKey config;
                       sg_sign :=
                         encryptStr
                           (accessKey config ++ token w ++ t
                              ++ join LF [method; sha256_hex json; "";
                                          url_of (uri_of path) querystring])
                           (secretKey config);
                       sg_sign_method := "HMAC-SHA256";
                       sg_access_token := token w |}, w')
        end
    end.
Proof.
  unfold getRequestSign, bind, record, now, deref, store, read_token, ret, throw. simpl.
  destruct (decodeURIComponent platform _); [|reflexivity].
  destruct (JSON_stringify (or_empty body)); reflexivity.
Qed.

Lemma deref_store (h : list object) (l : loc) (o : object) :
  l < List.length h -> deref_in (store_in h l o) l = o.
Proof.
  unfold deref_in. revert l. induction h as [|x h IH]; intros l L; simpl in *; [lia|].
  destruct l; simpl; [reflexivity | apply IH; lia].
Qed.

(** ** The signer *)

(** C1, as the code has it: when the path's query string gives a key, the
    value parsed from the path is the one in the canonical query, whatever
    the explicit query object held under that key.
    [Object.assign(query, qs.parse(pathQuery))] writes the parsed
    parameters last, and the returned [path] is built from that object. *)
Theorem path_parameter_wins
        (path method : string) (headers : object) (query : loc) (body : value)
        (w : World) (k : string) (v_path : value) :
  get (qs_parse platform (pathQuery_of path)) k = Some v_path ->
  let queryMerged :=
    Object_assign (deref_in (heap w) query) (qs_parse platform (pathQuery_of path)) in
  get (sortedQuery_of queryMerged) k = Some v_path
  /\ forall s, fst (getRequestSign path method headers query body w) = Return s ->
       exists querystring,
         decodeURIComponent platform (qs_stringify platform (sortedQuery_of queryMerged))
         = Some querystring
         /\ sg_path s = url_of (uri_of path) querystring.
Proof.
  intros G queryMerged. split.
  - rewrite get_sortedQuery_of. unfold queryMerged. rewrite get_Object_assign.
    assert (H : has (qs_parse platform (pathQuery_of path)) k = true)
      by (apply get_has; congruence).
    rewrite H. unfold prop. now rewrite G.
  - intros s R. rewrite getRequestSign_run in R. fold queryMerged in R.
    destruct (decodeURIComponent platform _) as [querystring|]; [|discriminate].
    exists querystring. split; [reflexivity|].
    destruct (JSON_stringify_or_empty body) as [json E]. rewrite E in R.
    simpl in R. injection R as <-. reflexivity.
Qed.

(** A key that only the explicit query has keeps the explicit value. *)
Lemma explicit_parameter_kept (path : string) (query : object) (k : string) :
  get (qs_parse platform (pathQuery_of path)) k = None ->
  get (sortedQuery_of (Object_assign query (qs_parse platform (pathQuery_of path)))) k
  = get query k.
Proof.
  intro G. rewrite get_sortedQuery_of, get_Object_assign.
  apply get_none in G. now rewrite G.
Qed.

(** C3: when the canonical query decodes, [getRequestSign] returns, and the
    [sign] it returns is the uppercase hexadecimal HMAC-SHA256, keyed by
    [secretKey], of [accessKey + token + t + stringToSign], where
    [stringToSign] is the method, the SHA-256 of the JSON text of the body,
    an empty line and the canonical path, joined by line feeds. *)
Theorem signature_is_uppercase_hmac
        (path method : string) (headers : object) (query : loc) (body : value)
        (w : World) (querystring : string) :
  decodeURIComponent platform
    (qs_stringify platform
       (sortedQuery_of
          (Object_assign (deref_in (heap w) query) (qs_parse platform (pathQuery_of path)))))
  = Some querystring ->
  exists s json,
    fst (getRequestSign path method headers query body w) = Return s
    /\ JSON_stringify (or_empty body) = Some json
    /\ sg_path s = url_of (uri_of path) querystring
    /\ sg_t s = string_of_N (Date_now env (reads w))
    /\ sg_access_token s = token w
    /\ sg_sign s
       = toUpperCase
           (hmac_sha256_hex (secretKey config)
              (accessKey config ++ token w ++ sg_t s
                 ++ method ++ LF ++ sha256_hex json ++ LF ++ "" ++ LF ++ sg_path s)).
Proof.
  intro D. destruct (JSON_stringify_or_empty body) as [json E].
  rewrite getRequestSign_run, D, E. simpl.
  eexists. exists json. repeat split.
Qed.

(** Two paths with the same [uri] whose query strings are parsed to the
    same parameters, name by name with the same value, get the same headers
    from [getRequestSign]: the keys are sorted before the query is
    serialised. *)
Lemma same_parameters_same_headers
        (path1 path2 method : string) (headers : object) (query : loc) (body : value)
        (w : World) :
  uri_of path1 = uri_of path2 ->
  (forall k, get (qs_parse platform (pathQuery_of path1)) k
             = get (qs_parse platform (pathQuery_of path2)) k) ->
  NoDup (Object_keys (deref_in (heap w) query)) ->
  fst (getRequestSign path1 method headers query body w)
  = fst (getRequestSign path2 method headers query body w).
Proof.
  intros U G N. rewrite !getRequestSign_run. cbv zeta.
  rewrite (sortedQuery_of_merged _ _ _ N G), U.
  destruct (decodeURIComponent platform _); [|reflexivity].
  destruct (JSON_stringify (or_empty body)); reflexivity.
Qed.

(** C10, as the code has it: [getRequestSign] writes the parameters parsed
    from the path into the caller's [query] object, which after the call is
    [Object.assign(query, parsed)].  The caller sees a changed object when
    some parsed parameter was not already there with that value, and the
    same object otherwise. *)
Theorem query_argument_is_written
        (path method : string) (headers : object) (query : loc) (body : value)
        (w : World) :
  query < List.length (heap w) ->
  let parsed := qs_parse platform (pathQuery_of path) in
  let before := deref_in (heap w) query in
  let after :=
    deref_in (heap (snd (getRequestSign path method headers query body w))) query in
  after = Object_assign before parsed
  /\ (forall k, has parsed k = true -> get after k = Some (prop parsed k))
  /\ ((exists k, has parsed k = true /\ get before k <> Some (prop parsed k)) ->
      after <> before)
  /\ ((forall k, has parsed k = true -> get before k = Some (prop parsed k)) ->
      after = before).
Proof.
  intros L parsed before after.
  assert (A : after = Object_assign before parsed).
  { unfold after. rewrite getRequestSign_run. cbv zeta.
    destruct (decodeURIComponent platform _);
      [destruct (JSON_stringify (or_empty body))|]; simpl; now apply deref_store. }
  assert (W : forall k, has parsed k = true -> get after k = Some (prop parsed k)).
  { intros k H. now rewrite A, get_Object_assign, H. }
  repeat split; trivial.
  - intros [k [H D]] E. apply D. rewrite <- E. now apply W.
  - intro S. rewrite A. now apply Object_assign_same.
Qed.

(** ** The session token *)

Lemma truthy_iff (s : string) : truthy s = true <-> s <> "".
Proof. destruct s; simpl; split; congruence. Qed.

Lemma getToken_run (w : World) :
  let r := token_request (string_of_N (Date_now env (reads w))) in
  let tr := (trace w ++ [Enter_getToken])%list in
  let after tk := {| token := tk; heap := heap w; reads := S (reads w);
                     trace := tr ++ [Sent r] |} in
  getToken w
  = match upstream env tr r with
    | Failed m => (Throw (AxiosError m), after (token w))
    | Answered None =>
        (Throw (TypeError "Cannot read properties of null (reading 'msg')"), after (token w))
    | Answered (Some login) =>
        if negb (success login)
        then (Throw (Error ("fetch failed: " ++ msg login)), after (token w))
        else match access_token login with
             | None =>
                 (Throw (TypeError
                           "Cannot read properties of undefined (reading 'access_token')"),
                  after (token w))
             | Some tk => (Return tk, after tk)
             end
    end.
Proof.
  unfold getToken, try_catch, bind, record, now, httpClient_request, throw. simpl.
  destruct (upstream env _ _) as [m|[login|]]; try reflexivity.
  destruct (success login); simpl; [|reflexivity].
  destruct (access_token login); reflexivity.
Qed.

(** [getToken] makes one call, the token exchange, whatever the state. *)
Lemma getToken_trace (w : World) :
  trace (snd (getToken w))
  = (trace w ++ [Enter_getToken; Sent (token_request (string_of_N (Date_now env (reads w))))])%list.
Proof.
  rewrite getToken_run. cbv zeta. rewrite <- app_assoc. simpl.
  destruct (upstream env _ _) as [m|[login|]]; try reflexivity.
  destruct (success login); simpl; [|reflexivity].
  destruct (access_token login); reflexivity.
Qed.

(** A [getToken] that throws leaves the token as it was. *)
Lemma getToken_throw_keeps_token (w : World) (e : exn) :
  fst (getToken w) = Throw e -> token (snd (getToken w)) = token w.
Proof.
  rewrite getToken_run. cbv zeta.
  destruct (upstream env _ _) as [m|[login|]]; try reflexivity.
  destruct (success login); simpl; [|reflexivity].
  destruct (access_token login); [discriminate | reflexivity].
Qed.

(** C4: the request [getToken] sends, and the [sign] in it, are the same
    whether a stale token or no token is held: the signed payload is
    [accessKey + timestamp + stringToSign], without the token. *)
Theorem token_signature_ignores_held_token (w : World) (stale : string) :
  let t := string_of_N (Date_now env (reads w)) in
  trace (snd (getToken (with_token stale w)))
  = (trace w ++ [Enter_getToken; Sent (token_request t)])%list
  /\ trace (snd (getToken (with_token stale w))) = trace (snd (getToken (with_token "" w)))
  /\ token_headers t
     = [ ("t", t); ("sign_method", "HMAC-SHA256"); ("client_id", accessKey config);
         ("sign",
          toUpperCase
            (hmac_sha256_hex (secretKey config)
               (accessKey config ++ t
                  ++ "GET" ++ LF ++ sha256_hex "" ++ LF ++ "" ++ LF ++ token_url))) ].
Proof.
  intro t. rewrite !getToken_trace. repeat split.
Qed.

(** C9: when the token exchange fails (the transport fails, or the envelope
    is missing or says [success] false), [getToken] throws and the token
    held before is still held; the callback of the two-hour timer then
    returns normally, the token again unchanged.  And whatever makes a
    [getToken] throw, in any state, the token is left as it was. *)
Theorem failed_exchange_keeps_token (w : World) :
  exchange_fails w ->
  (exists e, fst (getToken w) = Throw e)
  /\ token (snd (getToken w)) = token w
  /\ fst (refresh_tick w) = Return tt
  /\ token (snd (refresh_tick w)) = token w
  /\ forall w0 e, fst (getToken w0) = Throw e -> token (snd (getToken w0)) = token w0.
Proof.
  intro F. assert (T : exists e, fst (getToken w) = Throw e).
  { unfold exchange_fails in F. rewrite getToken_run. cbv zeta.
    destruct (upstream env _ _) as [m|[login|]]; simpl in *.
    - eexists; reflexivity.
    - rewrite F. eexists; reflexivity.
    - eexists; reflexivity. }
  destruct T as [e T]. pose proof (getToken_throw_keeps_token w e T) as K.
  split; [now exists e|]. split; [exact K|].
  unfold refresh_tick, try_catch, bind, ret.
  destruct (getToken w) as [[tk|e'] w1]; simpl in *; [discriminate|].
  repeat split; [exact K | apply getToken_throw_keeps_token].
Qed.

(** ** The device gateway *)

Lemma exchanges_app (tr tr' : list Event) :
  exchanges (tr ++ tr') = exchanges tr + exchanges tr'.
Proof. unfold exchanges. now rewrite filter_app, length_app. Qed.

Lemma exchanges_cons_enter (tr : list Event) :
  exchanges (Enter_getRequestSign :: tr) = exchanges tr.
Proof. reflexivity. Qed.

Lemma uri_of_cons (c : ascii) (s : string) :
  Ascii.eqb c "?" = false -> uri_of (String c s) = String c (uri_of s).
Proof.
  unfold uri_of. simpl. intros ->. destruct (split "?" s); reflexivity.
Qed.

(** A device path is never the token endpoint. *)
Lemma device_url_is_no_exchange (rest querystring : string) :
  String.eqb (url_of (uri_of ("/v1.0/devices/" ++ rest)) querystring) token_url = false.
Proof.
  cbn [append]. rewrite !uri_of_cons by reflexivity.
  unfold url_of. destruct (truthy querystring); reflexivity.
Qed.

Lemma ensureToken_held (w : World) : token w <> "" -> ensureToken w = (Return tt, w).
Proof.
  intro H. apply truthy_iff in H. unfold ensureToken, bind, read_token. now rewrite H.
Qed.

(** One device call with the token held: the guard does nothing, the query
    object is made, [getRequestSign] runs, and either it throws or one
    request goes to the device path. *)
Ltac held_device_call H body :=
  unfold controlDevice, getDeviceInfo, try_catch, bind;
  rewrite (ensureToken_held _ H); unfold alloc; cbn [heap token reads trace];
  rewrite getRequestSign_run; cbv zeta; cbn [heap token reads trace];
  destruct (decodeURIComponent platform _) as [querystring|];
  [ destruct (JSON_stringify_or_empty body) as [json E]; rewrite E;
    unfold httpClient_request; cbn [heap token reads trace sg_path];
    eexists [Sent _]; split;
    [ destruct (upstream env _ _) as [m|[d|]]; cbn [fst snd trace throw];
      [ | unfold checked; destruct (success d) | unfold checked ];
      cbn [negb throw ret snd trace]; rewrite <- app_assoc; reflexivity
    | unfold exchanges; cbn [filter is_exchange req_url];
      now rewrite device_url_is_no_exchange ]
  | exists []; split; reflexivity ].

(** With a token held, [controlDevice] enters [getRequestSign] and, when
    that returns, sends one request to the device path. *)
Lemma controlDevice_held_trace (deviceId command : string) (val : value) (w : World) :
  token w <> "" ->
  exists tail,
    trace (snd (controlDevice deviceId command val w))
    = (trace w ++ Enter_getRequestSign :: tail)%list
    /\ exchanges tail = 0.
Proof. intro H. held_device_call H (command_body command val). Qed.

Lemma getDeviceInfo_held_trace (deviceId : string) (w : World) :
  token w <> "" ->
  exists tail,
    trace (snd (getDeviceInfo deviceId w))
    = (trace w ++ Enter_getRequestSign :: tail)%list
    /\ exchanges tail = 0.
Proof. intro H. held_device_call H (VObj []). Qed.

Lemma getToken_exchanges (w : World) :
  exchanges (trace (snd (getToken w))) = S (exchanges (trace w)).
Proof.
  rewrite getToken_trace, exchanges_app. unfold exchanges at 2. simpl. lia.
Qed.

(** C7: with a token held, the guard before a device call does nothing, and
    neither [controlDevice] nor [getDeviceInfo] makes a token exchange;
    [getToken], and with it the manual refresh route and the timer's
    callback, makes exactly one, in every state. *)
Theorem held_token_needs_no_exchange
        (w : World) (deviceId command : string) (val : value) :
  token w <> "" ->
  ensureToken w = (Return tt, w)
  /\ exchanges (trace (snd (controlDevice deviceId command val w))) = exchanges (trace w)
  /\ exchanges (trace (snd (getDeviceInfo deviceId w))) = exchanges (trace w)
  /\ forall w0,
       trace (snd (getToken w0))
       = (trace w0
            ++ [Enter_getToken;
                Sent (token_request (string_of_N (Date_now env (reads w0))))])%list
       /\ exchanges (trace (snd (getToken w0))) = S (exchanges (trace w0))
       /\ exchanges (trace (snd (post_token_refresh w0))) = S (exchanges (trace w0))
       /\ exchanges (trace (snd (refresh_tick w0))) = S (exchanges (trace w0)).
Proof.
  intro H. split; [now apply ensureToken_held|]. split; [|split].
  - destruct (controlDevice_held_trace deviceId command val w H) as [tail [-> Z]].
    now rewrite exchanges_app, exchanges_cons_enter, Z, Nat.add_0_r.
  - destruct (getDeviceInfo_held_trace deviceId w H) as [tail [-> Z]].
    now rewrite exchanges_app, exchanges_cons_enter, Z, Nat.add_0_r.
  - intro w0. split; [apply getToken_trace|]. split; [apply getToken_exchanges|].
    pose proof (getToken_exchanges w0) as X.
    unfold post_token_refresh, refresh_tick, try_catch, bind, json, ret.
    destruct (getToken w0) as [[tk|e] w1]; simpl in *; auto.
Qed.

(** C6: the preset [red] is [{h: 0, s: 1000, v: 1000}], and the preset
    route leaves the relay in the state the HSV route leaves it in when
    called with these numbers: the same command, the same body, the same
    signed request sent, for the same starting state. *)
Theorem preset_red_is_hsv_0_1000_1000 (w : World) :
  presetColors_at (toLowerCase "red") = Some (hsv 0 1000 1000)
  /\ snd (post_device_color_preset (VStr "red") w)
     = snd (controlDevice (deviceId config) "colour_data_v2" (hsv 0 1000 1000) w)
  /\ snd (post_device_color_hsv (Some 0%Q) (Some 1000%Q) (Some 1000%Q) w)
     = snd (controlDevice (deviceId config) "colour_data_v2" (hsv 0 1000 1000) w)
  /\ snd (post_device_color_preset (VStr "red") w)
     = snd (post_device_color_hsv (Some 0%Q) (Some 1000%Q) (Some 1000%Q) w).
Proof.
  assert (P : snd (post_device_color_preset (VStr "red") w)
              = snd (controlDevice (deviceId config) "colour_data_v2" (hsv 0 1000 1000) w)).
  { unfold post_device_color_preset, try_catch, bind, json, ret.
    change (presetColors_at (toLowerCase "red")) with (Some (hsv 0 1000 1000)).
    cbn [truthy_value truthy negb].
    destruct (controlDevice _ _ _ w) as [[d|e] w1]; reflexivity. }
  assert (H : snd (post_device_color_hsv (Some 0%Q) (Some 1000%Q) (Some 1000%Q) w)
              = snd (controlDevice (deviceId config) "colour_data_v2" (hsv 0 1000 1000) w)).
  { unfold post_device_color_hsv, try_catch, bind, json, ret.
    change (Qltb 0 0 || Qltb 360 0 || Qltb 1000 0 || Qltb 1000 1000
            || Qltb 1000 0 || Qltb 1000 1000) with false.
    change (VObj [("h", VNum (Math_round 0)); ("s", VNum (Math_round 1000));
                  ("v", VNum (Math_round 1000))]) with (hsv 0 1000 1000).
    cbv beta iota.
    destruct (controlDevice _ _ _ w) as [[d|e] w1]; reflexivity. }
  repeat split; congruence.
Qed.

Lemma Qltb_lt (x y : Q) : Qltb x y = true <-> (x < y)%Q.
Proof.
  unfold Qltb. rewrite negb_true_iff, <- not_true_iff_false, Qle_bool_iff.
  split; [apply Qnot_le_lt | apply Qlt_not_le].
Qed.

(** C8: a brightness outside 10..1000, or an [h] outside 0..360 or an [s]
    or [v] outside 0..1000, is answered with status 400 and the state is
    untouched: [getRequestSign] and [getToken] are not entered, nothing is
    sent, the clock is not read. *)
Theorem out_of_range_is_rejected_untouched (w : World) :
  (forall brightness,
      outside 10 1000 brightness ->
      exists res, post_device_brightness brightness w = (Return res, w)
                  /\ res_status res = 400)
  /\ (forall h s v,
         outside 0 360 h \/ outside 0 1000 s \/ outside 0 1000 v ->
         exists res, post_device_color_hsv h s v w = (Return res, w)
                     /\ res_status res = 400).
Proof.
  split.
  - intros [b|] O; [|contradiction]. simpl in O.
    unfold post_device_brightness, try_catch, json, ret.
    assert (E : Qltb b 10 || Qltb 1000 b = true).
    { apply orb_true_iff. destruct O as [O|O]; [left | right]; now apply Qltb_lt. }
    rewrite E. eexists. split; reflexivity.
  - intros h s v O.
    unfold post_device_color_hsv, try_catch, json, ret.
    destruct h as [h|], s as [s|], v as [v|];
      try (eexists; split; reflexivity).
    assert (E : Qltb h 0 || Qltb 360 h || Qltb s 0 || Qltb 1000 s || Qltb v 0 || Qltb 1000 v
                = true).
    { simpl in O. rewrite !orb_true_iff, !Qltb_lt. tauto. }
    rewrite E. eexists. split; reflexivity.
Qed.

(* ================================================================== *)
(** * Further properties: the calls a request to the relay can make *)

Lemma try_catch_rethrow {A} (m : M A) (w : World) :
  try_catch m (fun error => throw error) w = m w.
Proof. unfold try_catch, throw. now destruct (m w) as [[a|e] w']. Qed.

Lemma controlDevice_guarded (deviceId command : string) (val : value) (w : World) :
  controlDevice deviceId command val w
  = (ensureToken ;;
     signed_call "POST" ("/v1.0/devices/" ++ deviceId ++ "/commands")
                 (command_body command val) (Some (command_body command val))) w.
Proof. unfold controlDevice. now rewrite try_catch_rethrow. Qed.

Lemma getDeviceInfo_guarded (deviceId : string) (w : World) :
  getDeviceInfo deviceId w
  = (ensureToken ;; signed_call "GET" ("/v1.0/devices/" ++ deviceId) (VObj []) None) w.
Proof. unfold getDeviceInfo. now rewrite try_catch_rethrow. Qed.

(** [getToken] returns the token the provider granted, and holds it. *)
Lemma getToken_returns (w : World) (tk : string) :
  fst (getToken w) = Return tk ->
  token (snd (getToken w)) = tk
  /\ exists login, exchange_reply w = Answered (Some login)
                   /\ success login = true /\ access_token login = Some tk.
Proof.
  unfold exchange_reply. rewrite getToken_run. cbv zeta.
  destruct (upstream env _ _) as [m|[login|]]; try discriminate.
  destruct (success login) eqn:S; simpl; [|discriminate].
  destruct (access_token login) as [tk'|] eqn:A; [|discriminate].
  simpl. intros [= <-]. split; [reflexivity|]. exists login. now rewrite A.
Qed.

Lemma ensureToken_cold (w : World) :
  token w = "" ->
  ensureToken w = match getToken w with
                  | (Return _, w') => (Return tt, w')
                  | (Throw e, w') => (Throw e, w')
                  end.
Proof.
  intro H. unfold ensureToken, bind, read_token, ret. rewrite H. simpl.
  now destruct (getToken w) as [[tk|e] w'].
Qed.

Lemma store_in_length (h : list object) (l : loc) (o : object) :
  List.length (store_in h l o) = List.length h.
Proof.
  revert l. induction h as [|x h IH]; intro l; [reflexivity|].
  destruct l; simpl; [reflexivity | now rewrite IH].
Qed.

Lemma deref_store_other (h : list object) (l l' : loc) (o : object) :
  l' <> l -> deref_in (store_in h l o) l' = deref_in h l'.
Proof.
  unfold deref_in. revert l l'. induction h as [|x h IH]; intros l l' D; [reflexivity|].
  destruct l, l'; simpl; try reflexivity; [congruence | apply IH; congruence].
Qed.

(** The state [getRequestSign] leaves, whether it returns or throws. *)
Lemma getRequestSign_state (path method : string) (headers : object) (query : loc)
      (body : value) (w : World) :
  snd (getRequestSign path method headers query body w)
  = {| token := token w;
       heap := store_in (heap w) query
                 (Object_assign (deref_in (heap w) query)
                                (qs_parse platform (pathQuery_of path)));
       reads := S (reads w);
       trace := trace w ++ [Enter_getRequestSign] |}.
Proof.
  rewrite getRequestSign_run. cbv zeta.
  destruct (decodeURIComponent platform _); [|reflexivity].
  destruct (JSON_stringify (or_empty body)); reflexivity.
Qed.

Lemma getRequestSign_returns (path method : string) (headers : object) (query : loc)
      (body : value) (w : World) (s : Signed) :
  fst (getRequestSign path method headers query body w) = Return s ->
  (exists querystring, sg_path s = url_of (uri_of path) querystring)
  /\ sg_access_token s = token w
  /\ sg_t s = string_of_N (Date_now env (reads w)).
Proof.
  rewrite getRequestSign_run. cbv zeta.
  destruct (decodeURIComponent platform _) as [querystring|]; [|discriminate].
  destruct (JSON_stringify (or_empty body)); [|discriminate].
  simpl. intros [= <-]. simpl. eauto.
Qed.

Lemma signed_call_run (method url : string) (body : value) (data : option value)
      (w : World) :
  let w0 := {| token := token w; heap := heap w ++ [[]]; reads := reads w;
               trace := trace w |} in
  signed_call method url body data w
  = match getRequestSign url method [] (List.length (heap w)) body w0 with
    | (Throw e, w1) => (Throw e, w1)
    | (Return s, w1) =>
        let r := {| req_method := method; req_url := sg_path s;
                    req_headers := headers_of s; req_data := data |} in
        let w2 := {| token := token w1; heap := heap w1; reads := reads w1;
                     trace := trace w1 ++ [Sent r] |} in
        match upstream env (trace w1) r with
        | Failed m => (Throw (AxiosError m), w2)
        | Answered None =>
            (Throw (TypeError "Cannot read properties of null (reading 'msg')"), w2)
        | Answered (Some d) =>
            if negb (success d)
            then (Throw (Error ("request api failed: " ++ msg d)), w2)
            else (Return d, w2)
        end
    end.
Proof.
  unfold signed_call, bind, alloc. cbv zeta.
  destruct (getRequestSign _ _ _ _ _ _) as [[s|e] w1]; [|reflexivity].
  unfold httpClient_request.
  destruct (upstream env _ _) as [m|[d|]]; try reflexivity.
  unfold checked. destruct (success d); reflexivity.
Qed.

(** What one signed call does: the signer is entered; either it throws and
    nothing is sent, or one request is sent, on the path the signer
    returned and with the token held at the start, and the call returns
    exactly when the provider answers it with an envelope whose [success]
    is true. *)
Lemma signed_call_cases (method url : string) (body : value) (data : option value)
      (w : World) :
  let out := signed_call method url body data w in
  token (snd out) = token w
  /\ ((exists e, fst out = Throw e
                 /\ trace (snd out) = (trace w ++ [Enter_getRequestSign])%list)
      \/ exists r,
           trace (snd out) = (trace w ++ [Enter_getRequestSign; Sent r])%list
           /\ req_method r = method /\ req_data r = data
           /\ (exists querystring, req_url r = url_of (uri_of url) querystring)
           /\ In ("access_token", token w) (req_headers r)
           /\ forall d, fst out = Return d
                        <-> upstream env (trace w ++ [Enter_getRequestSign]) r
                            = Answered (Some d) /\ success d = true).
Proof.
  cbv zeta. rewrite signed_call_run. cbv zeta.
  pose proof (getRequestSign_state url method [] (List.length (heap w)) body
                {| token := token w; heap := heap w ++ [[]]; reads := reads w;
                   trace := trace w |}) as S.
  pose proof (getRequestSign_returns url method [] (List.length (heap w)) body
                {| token := token w; heap := heap w ++ [[]]; reads := reads w;
                   trace := trace w |}) as R.
  destruct (getRequestSign _ _ _ _ _ _) as [[s|e] w1]; simpl in S; subst w1;
    cbn [token heap reads trace] in *.
  - destruct (R s eq_refl) as [Q [A _]]. split; [|right].
    + destruct (upstream env _ _) as [m|[d|]]; [reflexivity| |reflexivity].
      now destruct (success d).
    + exists {| req_method := method; req_url := sg_path s;
                 req_headers := headers_of s; req_data := data |}.
      cbn [req_method req_url req_headers req_data].
      split; [|split; [reflexivity|split; [reflexivity|split; [exact Q|split]]]].
      * destruct (upstream env _ _) as [m|[d|]]; cbn [snd trace];
          [ | destruct (success d); cbn [negb snd trace] | ];
          now rewrite <- app_assoc.
      * unfold headers_of. rewrite A. simpl. tauto.
      * intro d. destruct (upstream env _ _) as [m|[d'|]]; cbn [fst].
        -- split; [discriminate | intros [? _]; discriminate].
        -- destruct (success d') eqn:E; cbn [negb fst].
           ++ split; [intros [= <-]; now split | intros [[= <-] _]; reflexivity].
           ++ split; [discriminate | intros [[= <-] X]; congruence].
        -- split; [discriminate | intros [? _]; discriminate].
  - split; [reflexivity|]. left. exists e. split; reflexivity.
Qed.

Lemma exchanges_token_request (t : string) (tr : list Event) :
  exchanges (Enter_getToken :: Sent (token_request t) :: tr) = S (exchanges tr).
Proof. reflexivity. Qed.

Lemma requests_app (tr tr' : list Event) :
  requests (tr ++ tr') = (requests tr ++ requests tr')%list.
Proof. unfold requests. now rewrite flat_map_app. Qed.

(** The tail of a signed call to a device path: no exchange, at most one
    request. *)
Lemma device_tail (rest : string) (tr : list Event) :
  (tr = [Enter_getRequestSign]
   \/ exists r, tr = [Enter_getRequestSign; Sent r]
                /\ exists querystring,
                     req_url r = url_of (uri_of ("/v1.0/devices/" ++ rest)) querystring) ->
  exchanges tr = 0 /\ List.length (requests tr) <= 1.
Proof.
  intros [->|[r [-> [querystring U]]]]; [split; [reflexivity | simpl; lia]|].
  unfold exchanges. cbn [filter is_exchange requests flat_map app List.length].
  rewrite U, device_url_is_no_exchange. simpl. lia.
Qed.

(** A guarded call to a device path: the exchange is made exactly when no
    token is held, and once; at most one request follows it. *)
Lemma guarded_call_budget (method rest : string) (body : value) (data : option value)
      (w : World) :
  exists tail,
    trace (snd ((ensureToken ;; signed_call method ("/v1.0/devices/" ++ rest) body data) w))
    = (trace w ++ tail)%list
    /\ exchanges tail = (if truthy (token w) then 0 else 1)
    /\ List.length (requests tail) <= S (exchanges tail).
Proof.
  unfold bind at 1. destruct (truthy (token w)) eqn:H.
  - rewrite ensureToken_held by now apply truthy_iff.
    destruct (signed_call_cases method ("/v1.0/devices/" ++ rest) body data w)
      as [_ [[e [_ T]]|[r [T [_ [_ [U _]]]]]]]; rewrite T; eexists; (split; [reflexivity|]).
    + destruct (device_tail rest [Enter_getRequestSign]) as [X L]; [now left|].
      rewrite X. split; [reflexivity | lia].
    + destruct (device_tail rest [Enter_getRequestSign; Sent r]) as [X L]; [right; eauto|].
      rewrite X. split; [reflexivity | lia].
  - assert (C : token w = "") by (destruct (token w); [reflexivity | discriminate]).
    rewrite (ensureToken_cold _ C).
    pose proof (getToken_trace w) as G.
    destruct (getToken w) as [[tk|e] w1]; cbn [snd] in G.
    + destruct (signed_call_cases method ("/v1.0/devices/" ++ rest) body data w1)
        as [_ [[e [_ T]]|[r [T [_ [_ [U _]]]]]]]; rewrite T, G, <- app_assoc;
        eexists; (split; [reflexivity|]); cbn [app];
        rewrite exchanges_token_request.
      * destruct (device_tail rest [Enter_getRequestSign]) as [X L]; [now left|].
        rewrite X. split; [reflexivity | cbn; lia].
      * destruct (device_tail rest [Enter_getRequestSign; Sent r]) as [X L]; [right; eauto|].
        rewrite X. split; [reflexivity | cbn in *; lia].
    + cbn [snd]. rewrite G. eexists. split; [reflexivity|].
      rewrite exchanges_token_request. split; [reflexivity | cbn; lia].
Qed.

(** X1: one call of [controlDevice] or [getDeviceInfo], from any state,
    makes a token exchange exactly when no token is held, and then one
    only; besides the exchange at most one request leaves the relay.
    Nothing is retried. *)
Theorem device_call_budget (deviceId command : string) (val : value) (w : World) :
  (exists tail,
      trace (snd (controlDevice deviceId command val w)) = (trace w ++ tail)%list
      /\ exchanges tail = (if truthy (token w) then 0 else 1)
      /\ List.length (requests tail) <= S (exchanges tail))
  /\ (exists tail,
         trace (snd (getDeviceInfo deviceId w)) = (trace w ++ tail)%list
         /\ exchanges tail = (if truthy (token w) then 0 else 1)
         /\ List.length (requests tail) <= S (exchanges tail)).
Proof.
  rewrite controlDevice_guarded, getDeviceInfo_guarded. split.
  - apply (guarded_call_budget "POST" (deviceId ++ "/commands")).
  - apply (guarded_call_budget "GET" deviceId).
Qed.

(** X2: when no token is held and the token exchange fails, a device call
    throws what [getToken] threw and stops there: the only request made is
    the exchange, [getRequestSign] is not entered, nothing goes to the
    device path, and still no token is held. *)
Theorem cold_start_failure_reaches_no_device
        (deviceId command : string) (val : value) (w : World) :
  token w = "" ->
  exchange_fails w ->
  exists e,
    fst (getToken w) = Throw e
    /\ controlDevice deviceId command val w = (Throw e, snd (getToken w))
    /\ getDeviceInfo deviceId w = (Throw e, snd (getToken w))
    /\ trace (snd (getToken w))
       = (trace w ++ [Enter_getToken;
                      Sent (token_request (string_of_N (Date_now env (reads w))))])%list
    /\ token (snd (getToken w)) = "".
Proof.
  intros C F.
  assert (T : exists e, fst (getToken w) = Throw e).
  { unfold exchange_fails in F. rewrite getToken_run. cbv zeta.
    destruct (upstream env _ _) as [m|[login|]]; simpl in *.
    - eexists; reflexivity.
    - rewrite F. eexists; reflexivity.
    - eexists; reflexivity. }
  destruct T as [e T]. exists e.
  pose proof (getToken_throw_keeps_token w e T) as K.
  pose proof (getToken_trace w) as G.
  rewrite controlDevice_guarded, getDeviceInfo_guarded. unfold bind.
  rewrite (ensureToken_cold _ C).
  destruct (getToken w) as [[tk|e'] w1]; simpl in *; [discriminate|].
  injection T as ->. repeat split; congruence.
Qed.

(** X3: when no token is held and the exchange grants a non-empty token, a
    device call is the exchange followed by the same call on the token just
    stored: same outcome, same state. *)
Theorem cold_call_is_exchange_then_held_call
        (deviceId command : string) (val : value) (w : World) (tk : string) :
  token w = "" ->
  fst (getToken w) = Return tk ->
  tk <> "" ->
  token (snd (getToken w)) = tk
  /\ controlDevice deviceId command val w
     = controlDevice deviceId command val (snd (getToken w))
  /\ getDeviceInfo deviceId w = getDeviceInfo deviceId (snd (getToken w)).
Proof.
  intros C R N. destruct (getToken_returns w tk R) as [T _].
  split; [exact T|].
  rewrite !controlDevice_guarded, !getDeviceInfo_guarded. unfold bind.
  rewrite (ensureToken_cold _ C).
  rewrite (ensureToken_held (snd (getToken w))) by congruence.
  destruct (getToken w) as [[tk'|e] w1]; simpl in *; [|discriminate].
  split; reflexivity.
Qed.

(** X4: what [getRequestSign] touches, whether it returns or throws: the
    clock is read once, one event is recorded, nothing is sent, the token
    is as before, and in the store only the [query] object can differ. *)
Theorem getRequestSign_frame
        (path method : string) (headers : object) (query : loc) (body : value)
        (w : World) :
  let w' := snd (getRequestSign path method headers query body w) in
  token w' = token w
  /\ reads w' = S (reads w)
  /\ trace w' = (trace w ++ [Enter_getRequestSign])%list
  /\ requests (trace w') = requests (trace w)
  /\ List.length (heap w') = List.length (heap w)
  /\ forall l, l <> query -> deref_in (heap w') l = deref_in (heap w) l.
Proof.
  cbv zeta. rewrite getRequestSign_state. cbn [token heap reads trace].
  repeat split.
  - rewrite requests_app. simpl. apply app_nil_r.
  - apply store_in_length.
  - intros l D. now apply deref_store_other.
Qed.

(* ================================================================== *)
(** * Further properties: the routes *)

(** A guarded call that returns was answered, on its last request, with
    the envelope it returns, and that envelope says [success]. *)
Lemma guarded_call_returns (method url : string) (body : value) (data : option value)
      (w : World) (d : Envelope) :
  fst ((ensureToken ;; signed_call method url body data) w) = Return d ->
  exists tr r,
    trace (snd ((ensureToken ;; signed_call method url body data) w)) = (tr ++ [Sent r])%list
    /\ upstream env tr r = Answered (Some d)
    /\ success d = true.
Proof.
  unfold bind at 1 2. destruct (ensureToken w) as [[[]|e] w1]; [|discriminate].
  intro R.
  destruct (signed_call_cases method url body data w1)
    as [_ [[e [T _]]|[r [T [_ [_ [_ [_ I]]]]]]]]; [congruence|].
  destruct (proj1 (I d) R) as [Hu Hs].
  exists (trace w1 ++ [Enter_getRequestSign])%list, r.
  rewrite T, <- app_assoc. repeat split; assumption.
Qed.



Ltac refused := left; eexists; split; [reflexivity | split; reflexivity].

Ltac thrown :=
  right; right; right; eexists;
  split; [reflexivity | split; [reflexivity | split; [intros ? [=] |]]];
  eexists; split; [reflexivity | split; reflexivity].

(** What a route comes to once its checks are made: it refuses with status
    400 and touches nothing, or it makes one guarded call to a device path
    and answers 200 when that returns and 500 when it throws, or it is the
    manual refresh, or it is the preset route given a [color] that is
    truthy and no string, which answers 500 and touches nothing. *)
Lemma handle_cases (c : Call) (w : World) :
  (exists res, handle c w = (Return res, w)
               /\ res_status res = 400 /\ res_success res = false)
  \/ (exists method rest body data ok err,
         handle c w
         = match (ensureToken ;; signed_call method ("/v1.0/devices/" ++ rest) body data) w
           with
           | (Return _, w') =>
               (Return {| res_status := 200; res_success := true; res_message := ok |}, w')
           | (Throw _, w') =>
               (Return {| res_status := 500; res_success := false; res_message := err |}, w')
           end)
  \/ c = POST_token_refresh
  \/ (exists color,
         c = POST_device_color_preset color
         /\ truthy_value color = true
         /\ (forall s, color <> VStr s)
         /\ exists res, handle c w = (Return res, w)
                        /\ res_status res = 500 /\ res_success res = false).
Proof.
  assert (D : forall dev command val ok err,
             exists method rest body data ok' err',
               try_catch (controlDevice dev command val ;; json 200 true ok)
                         (fun _ => json 500 false err) w
               = match (ensureToken
                          ;; signed_call method ("/v1.0/devices/" ++ rest) body data) w
                 with
                 | (Return _, w') =>
                     (Return {| res_status := 200; res_success := true;
                                res_message := ok' |}, w')
                 | (Throw _, w') =>
                     (Return {| res_status := 500; res_success := false;
                                res_message := err' |}, w')
                 end).
  { intros dev command val ok err.
    exists "POST", (dev ++ "/commands"), (command_body command val),
      (Some (command_body command val)), ok, err.
    unfold try_catch, json, ret. unfold bind at 1. rewrite controlDevice_guarded.
    now destruct (bind ensureToken _ w) as [[d|e] w']. }
  assert (I : forall dev ok err,
             exists method rest body data ok' err',
               try_catch (getDeviceInfo dev ;; json 200 true ok)
                         (fun _ => json 500 false err) w
               = match (ensureToken
                          ;; signed_call method ("/v1.0/devices/" ++ rest) body data) w
                 with
                 | (Return _, w') =>
                     (Return {| res_status := 200; res_success := true;
                                res_message := ok' |}, w')
                 | (Throw _, w') =>
                     (Return {| res_status := 500; res_success := false;
                                res_message := err' |}, w')
                 end).
  { intros dev ok err. exists "GET", dev, (VObj []), None, ok, err.
    unfold try_catch, json, ret. unfold bind at 1. rewrite getDeviceInfo_guarded.
    now destruct (bind ensureToken _ w) as [[d|e] w']. }
  destruct c as [| |command val deviceId'| |deviceId'| |h s v|b|t|mode|color];
    cbn [handle].
  - right; left. unfold post_device_on. apply D.
  - right; left. unfold post_device_off. apply D.
  - unfold post_device_control. destruct command as [command|]; [|refused].
    destruct (negb (truthy command) || is_undefined val);
      [refused | right; left; apply D].
  - right; left. unfold get_device_info. apply I.
  - right; left. unfold get_device_id_info. apply I.
  - right; right; left. reflexivity.
  - unfold post_device_color_hsv.
    destruct h as [h|], s as [s|], v as [v|]; try (refused).
    destruct (Qltb h 0 || Qltb 360 h || Qltb s 0 || Qltb 1000 s || Qltb v 0 || Qltb 1000 v);
      [refused | right; left; apply D].
  - unfold post_device_brightness. destruct b as [b|]; [|refused].
    destruct (Qltb b 10 || Qltb 1000 b);
      [refused | right; left; apply D].
  - unfold post_device_temperature. destruct t as [t|]; [|refused].
    destruct (Qltb t 0 || Qltb 1000 t);
      [refused | right; left; apply D].
  - unfold post_device_mode. destruct mode as [mode|]; [|refused].
    destruct (negb (truthy mode)); [refused|].
    destruct (negb (existsb (String.eqb mode) validModes));
      [refused | right; left; apply D].
  - destruct color as [| |b|z|color|items|props].
    + refused.
    + refused.
    + destruct b; [thrown | refused].
    + destruct (z =? 0)%Z eqn:Z.
      * left. unfold post_device_color_preset. cbn [truthy_value]. rewrite Z.
        eexists. split; [reflexivity | split; reflexivity].
      * right; right; right. exists (VNum z).
        split; [reflexivity|]. split; [cbn [truthy_value]; now rewrite Z|].
        split; [intros ? [=]|].
        unfold post_device_color_preset. cbn [truthy_value]. rewrite Z.
        eexists. split; [reflexivity | split; reflexivity].
    + unfold post_device_color_preset. cbn [truthy_value].
      destruct (negb (truthy color)); [refused|].
      destruct (presetColors_at (toLowerCase color));
        [right; left; apply D | refused].
    + thrown.
    + thrown.
Qed.

Lemma post_token_refresh_run (w : World) :
  post_token_refresh w
  = match getToken w with
    | (Return _, w') =>
        (Return {| res_status := 200; res_success := true;
                   res_message := "Token renovado exitosamente" |}, w')
    | (Throw _, w') =>
        (Return {| res_status := 500; res_success := false;
                   res_message := "Error renovando token" |}, w')
    end.
Proof.
  unfold post_token_refresh, try_catch, bind, json, ret.
  now destruct (getToken w) as [[tk|e] w'].
Qed.

(** X5: no route lets an exception out.  Each answers with status 200 and
    [success] true, or with status 400 or 500 and [success] false. *)
Theorem routes_answer_200_400_or_500 (c : Call) (w : World) :
  exists res,
    fst (handle c w) = Return res
    /\ ((res_status res = 200 /\ res_success res = true)
        \/ ((res_status res = 400 \/ res_status res = 500) /\ res_success res = false)).
Proof.
  destruct (handle_cases c w)
    as [[res [E [S F]]]
       | [[method [rest [body [data [ok [err E]]]]]]
         | [-> | [color [_ [_ [_ [res [E [S F]]]]]]]]]].
  - exists res. rewrite E. split; [reflexivity | right; split; [left|]; assumption].
  - rewrite E. destruct (bind ensureToken _ w) as [[d|e] w'];
      eexists; (split; [reflexivity|]); simpl; tauto.
  - cbn [handle]. rewrite post_token_refresh_run.
    destruct (getToken w) as [[tk|e] w']; eexists; (split; [reflexivity|]); simpl; tauto.
  - exists res. rewrite E. split; [reflexivity | right; split; [right|]; assumption].
Qed.




(** X7: a route answers 200 only when the last request it sent was
    answered by the provider with an envelope whose [success] is true. *)
Theorem status_200_means_provider_success (c : Call) (w : World) (res : Res) :
  fst (handle c w) = Return res ->
  res_status res = 200 ->
  exists tr r d,
    trace (snd (handle c w)) = (tr ++ [Sent r])%list
    /\ upstream env tr r = Answered (Some d)
    /\ success d = true.
Proof.
  destruct (handle_cases c w)
    as [[res' [E [S F]]]
       | [[method [rest [body [data [ok [err E]]]]]]
         | [-> | [color [_ [_ [_ [res' [E [S F]]]]]]]]]];
    [ | | | rewrite E; simpl; intros [= <-]; congruence ].
  - rewrite E. simpl. intros [= <-]. congruence.
  - rewrite E.
    pose proof (guarded_call_returns method ("/v1.0/devices/" ++ rest) body data w) as G.
    destruct (bind ensureToken _ w) as [[d|e] w']; simpl in *; intros [= <-]; simpl;
      [|discriminate].
    intros _. destruct (G d eq_refl) as [tr [r [T [U S]]]]. now exists tr, r, d.
  - cbn [handle]. rewrite post_token_refresh_run.
    pose proof (getToken_trace w) as G. pose proof (getToken_returns w) as R.
    destruct (getToken w) as [[tk|e] w']; simpl in *; intros [= <-]; simpl; [|discriminate].
    intros _. destruct (R tk eq_refl) as [_ [login [X [S _]]]].
    exists (trace w ++ [Enter_getToken])%list, (token_request (string_of_N (Date_now env (reads w)))),
      login.
    rewrite G, <- app_assoc. repeat split; assumption.
Qed.

(** [Math.round] keeps a number between the integers it lies between. *)
Lemma Math_round_inside (lo hi : Z) (x : Q) :
  inside lo hi x -> (lo <= Math_round x <= hi)%Z.
Proof.
  intros [L H]. unfold Math_round. split.
  - rewrite <- (Qfloor_Z lo). apply Qfloor_resp_le.
    apply Qle_trans with x; [exact L|].
    rewrite <- (Qplus_0_r x) at 1. apply Qplus_le_r. discriminate.
  - apply Z.lt_succ_r. rewrite Zlt_Qlt.
    apply Qle_lt_trans with (x + (1 # 2))%Q; [apply Qfloor_le|].
    apply Qle_lt_trans with (inject_Z hi + (1 # 2))%Q; [now apply Qplus_le_l|].
    unfold Z.succ. rewrite inject_Z_plus. apply Qplus_lt_r. reflexivity.
Qed.

Lemma not_Qltb (x y : Q) : (y <= x)%Q -> Qltb x y = false.
Proof.
  intro L. destruct (Qltb x y) eqn:E; [|reflexivity].
  apply Qltb_lt in E. exfalso. now apply (Qlt_not_le x y).
Qed.

Lemma route_state {A} (m : M A) (ok err : string) (w : World) :
  snd (try_catch (m ;; json 200 true ok) (fun _ => json 500 false err) w) = snd (m w).
Proof. unfold try_catch, bind, json, ret. now destruct (m w) as [[a|e] w']. Qed.

(** X8: a value that passes a route's check reaches [controlDevice] rounded
    to an integer that is still in the route's range: a brightness in
    10..1000, a temperature in 0..1000, [h] in 0..360 with [s] and [v] in
    0..1000; one of the four modes is passed on as it is. *)
Theorem accepted_values_are_forwarded_in_range (w : World) :
  (forall b,
      inside 10 1000 b ->
      (10 <= Math_round b <= 1000)%Z
      /\ snd (post_device_brightness (Some b) w)
         = snd (controlDevice (deviceId config) "bright_value_v2" (VNum (Math_round b)) w))
  /\ (forall t,
         inside 0 1000 t ->
         (0 <= Math_round t <= 1000)%Z
         /\ snd (post_device_temperature (Some t) w)
            = snd (controlDevice (deviceId config) "temp_value_v2" (VNum (Math_round t)) w))
  /\ (forall h s v,
         inside 0 360 h -> inside 0 1000 s -> inside 0 1000 v ->
         (0 <= Math_round h <= 360)%Z /\ (0 <= Math_round s <= 1000)%Z
         /\ (0 <= Math_round v <= 1000)%Z
         /\ snd (post_device_color_hsv (Some h) (Some s) (Some v) w)
            = snd (controlDevice (deviceId config) "colour_data_v2"
                                 (hsv (Math_round h) (Math_round s) (Math_round v)) w))
  /\ (forall mode,
         In mode validModes ->
         snd (post_device_mode (Some mode) w)
         = snd (controlDevice (deviceId config) "work_mode" (VStr mode) w)).
Proof.
  split; [|split; [|split]].
  - intros b I. split; [now apply Math_round_inside|]. destruct I as [L H].
    unfold post_device_brightness.
    rewrite (not_Qltb b 10 L), (not_Qltb 1000 b H). apply route_state.
  - intros t I. split; [now apply Math_round_inside|]. destruct I as [L H].
    unfold post_device_temperature.
    rewrite (not_Qltb t 0 L), (not_Qltb 1000 t H). apply route_state.
  - intros h s v Ih Is Iv.
    split; [now apply Math_round_inside|].
    split; [now apply Math_round_inside|].
    split; [now apply Math_round_inside|].
    destruct Ih as [Lh Hh], Is as [Ls Hs], Iv as [Lv Hv]. unfold post_device_color_hsv.
    rewrite (not_Qltb h 0 Lh), (not_Qltb 360 h Hh), (not_Qltb s 0 Ls), (not_Qltb 1000 s Hs),
      (not_Qltb v 0 Lv), (not_Qltb 1000 v Hv).
    apply route_state.
  - intros mode I. unfold post_device_mode.
    assert (E : existsb (String.eqb mode) validModes = true).
    { apply existsb_exists. exists mode. split; [exact I | apply String.eqb_refl]. }
    assert (T : truthy mode = true).
    { simpl in I. destruct I as [<-|[<-|[<-|[<-|[]]]]]; reflexivity. }
    rewrite E, T. apply route_state.
Qed.

(** X9: the temperature and mode routes refuse what their checks exclude,
    with status 400 and the state untouched: a missing temperature or one
    outside 0..1000, a missing or empty mode or one that is not, letter for
    letter, one of the four. *)
Theorem temperature_and_mode_are_checked_first (w : World) :
  (forall temperature,
      temperature = None \/ outside 0 1000 temperature ->
      exists res, post_device_temperature temperature w = (Return res, w)
                  /\ res_status res = 400)
  /\ (forall mode,
         (forall m, mode = Some m -> ~ In m validModes) ->
         exists res, post_device_mode mode w = (Return res, w)
                     /\ res_status res = 400).
Proof.
  split.
  - intros [t|] [O|O]; try discriminate; try contradiction;
      unfold post_device_temperature, try_catch, json, ret;
      [|eexists; split; reflexivity].
    assert (E : Qltb t 0 || Qltb 1000 t = true).
    { apply orb_true_iff. destruct O as [O|O]; [left | right]; now apply Qltb_lt. }
    rewrite E. eexists. split; reflexivity.
  - intros [m|] N; unfold post_device_mode, try_catch, json, ret;
      [|eexists; split; reflexivity].
    destruct (truthy m); [|eexists; split; reflexivity]. cbn [negb].
    destruct (existsb (String.eqb m) validModes) eqn:E; [|eexists; split; reflexivity].
    apply existsb_exists in E as [x [I X]]. apply String.eqb_eq in X. subst x.
    now destruct (N m eq_refl).
Qed.

Lemma route_status {A} (m : M A) (ok err : string) (w : World) :
  exists res,
    fst (try_catch (m ;; json 200 true ok) (fun _ => json 500 false err) w) = Return res
    /\ (res_status res = 200 <-> exists a, fst (m w) = Return a).
Proof.
  unfold try_catch, bind, json, ret.
  destruct (m w) as [[a|e] w']; eexists; (split; [reflexivity|]); simpl.
  - split; eauto.
  - split; [discriminate | intros [a [=]]].
Qed.

(** X10: the control route passes on any command that is not empty with
    any value that is not [undefined], [false], [0] and [null] included, to
    the device named in the body or, when none or an empty one is named, to
    the configured device.  The on and off routes do what the control route
    does for [switch_led] with [true] and [false]. *)
Theorem control_route_forwards_every_defined_value (w : World) :
  (forall command val deviceId',
      command <> "" -> val <> VUndefined ->
      snd (post_device_control (Some command) val deviceId' w)
      = snd (controlDevice (or_else deviceId' (deviceId config)) command val w)
      /\ or_else (Some "") (deviceId config) = deviceId config
      /\ or_else None (deviceId config) = deviceId config)
  /\ (forall command val deviceId',
         command = None \/ command = Some "" \/ val = VUndefined ->
         exists res, post_device_control command val deviceId' w = (Return res, w)
                     /\ res_status res = 400)
  /\ snd (post_device_on w) = snd (post_device_control (Some "switch_led") (VBool true) None w)
  /\ snd (post_device_off w) = snd (post_device_control (Some "switch_led") (VBool false) None w).
Proof.
  split; [|split; [|split]].
  - intros command val deviceId' C V. split; [|split; reflexivity].
    unfold post_device_control. apply truthy_iff in C. rewrite C.
    destruct val; try congruence; apply route_state.
  - intros command val deviceId' [-> | [-> | ->]];
      unfold post_device_control, try_catch, json, ret.
    + eexists. split; reflexivity.
    + eexists. split; reflexivity.
    + destruct command as [command|]; [|eexists; split; reflexivity].
      rewrite orb_true_r. eexists. split; reflexivity.
  - unfold post_device_on, post_device_control. cbn [truthy negb is_undefined orb or_else].
    now rewrite !route_state.
  - unfold post_device_off, post_device_control. cbn [truthy negb is_undefined orb or_else].
    now rewrite !route_state.
Qed.

Lemma Math_round_integer (z : Z) : Math_round (inject_Z z) = z.
Proof.
  pose proof (Math_round_inside z z (inject_Z z)) as H.
  assert (I : inside z z (inject_Z z)) by (split; apply Qle_refl).
  specialize (H I). lia.
Qed.

(** The colours of the table are in the range the HSV route accepts. *)
Lemma presetColors_inside (name : string) (h s v : Z) :
  get presetColors name = Some (hsv h s v) ->
  inside 0 360 (inject_Z h) /\ inside 0 1000 (inject_Z s) /\ inside 0 1000 (inject_Z v).
Proof.
  unfold presetColors, get, hsv.
  repeat (destruct (String.eqb name _);
          [ intros [= <- <- <-]; unfold inside;
            rewrite <- !Zle_Qle; repeat split; lia | ]).
  discriminate.
Qed.

(** X11: every colour of the table, named in any mix of upper and lower
    case, is applied by the preset route as the HSV route applies its three
    numbers: the same state is left, and the same status answered. *)
Theorem every_preset_is_an_hsv_call (color : string) (h s v : Z) (w : World) :
  get presetColors (toLowerCase color) = Some (hsv h s v) ->
  let preset := post_device_color_preset (VStr color) w in
  let direct :=
    post_device_color_hsv (Some (inject_Z h)) (Some (inject_Z s)) (Some (inject_Z v)) w in
  snd preset = snd direct
  /\ exists res res',
       fst preset = Return res /\ fst direct = Return res'
       /\ res_status res = res_status res'.
Proof.
  intros G preset direct.
  assert (T : truthy color = true).
  { apply truthy_iff. intro E. subst color. discriminate. }
  destruct (presetColors_inside _ _ _ _ G) as [[Lh Hh] [[Ls Hs] [Lv Hv]]].
  assert (P : preset
              = try_catch (controlDevice (deviceId config) "colour_data_v2" (hsv h s v)
                             ;; json 200 true ("Color " ++ color ++ " aplicado exitosamente"))
                          (fun _ => json 500 false "Error aplicando color predefinido") w).
  { unfold preset, post_device_color_preset, presetColors_at. cbn [truthy_value].
    now rewrite T, G. }
  assert (D : direct
              = try_catch (controlDevice (deviceId config) "colour_data_v2" (hsv h s v)
                             ;; json 200 true "Color HSV cambiado exitosamente")
                          (fun _ => json 500 false "Error cambiando color HSV") w).
  { unfold direct, post_device_color_hsv.
    rewrite (not_Qltb _ 0 Lh), (not_Qltb 360 _ Hh), (not_Qltb _ 0 Ls), (not_Qltb 1000 _ Hs),
      (not_Qltb _ 0 Lv), (not_Qltb 1000 _ Hv), !Math_round_integer. reflexivity. }
  rewrite P, D, !route_state. split; [reflexivity|].
  unfold try_catch, bind, json, ret.
  destruct (controlDevice _ _ _ w) as [[d|e] w']; eexists; eexists; repeat split.
Qed.

(** X12: [/health] changes neither the token nor the trace, and what it
    reports is what the guard will find: [hasToken] is true exactly when
    the next device call needs no token exchange, and the three credential
    flags are all true exactly when [validateConfig] accepts. *)
Theorem health_reports_the_guard (w : World) :
  exists report,
    fst (get_health w) = Return report
    /\ token (snd (get_health w)) = token w
    /\ trace (snd (get_health w)) = trace w
    /\ (hasToken report = true
        <-> forall deviceId command val,
              exchanges (trace (snd (controlDevice deviceId command val
                                                   (snd (get_health w)))))
              = exchanges (trace w))
    /\ hasAccessKey report && hasSecretKey report && hasDeviceId report = validateConfig.
Proof.
  eexists. split; [reflexivity|]. cbn [get_health bind now read_token ret snd token trace
                                       hasToken hasAccessKey hasSecretKey hasDeviceId].
  split; [reflexivity|]. split; [reflexivity|]. split.
  - set (w1 := {| token := token w; heap := heap w; reads := S (reads w);
                  trace := trace w |}).
    assert (B : forall dev command val,
               exchanges (trace (snd (controlDevice dev command val w1)))
               = exchanges (trace w) + (if truthy (token w) then 0 else 1)).
    { intros dev command val. rewrite controlDevice_guarded.
      destruct (guarded_call_budget "POST" (dev ++ "/commands")
                  (command_body command val) (Some (command_body command val)) w1)
        as [tail [-> [X _]]].
      now rewrite exchanges_app, X. }
    split.
    + intros H deviceId command val. rewrite B, H. lia.
    + intro H. specialize (H "" "" VNull). rewrite B in H.
      destruct (truthy (token w)); [reflexivity | lia].
  - unfold validateConfig, missing.
    destruct (truthy (accessKey config)), (truthy (secretKey config)),
      (truthy (deviceId config)); reflexivity.
Qed.

Lemma startServer_rejected (w : World) :
  validateConfig = false -> startServer w = (Return (Exited 1), w).
Proof. intro V. unfold startServer, try_catch. now rewrite V. Qed.

(** X14: with the three credentials present, [startServer] makes one token
    exchange; it listens when the exchange grants a token, which is then the
    token held, and it ends the process with exit code 1, the token as
    before, when the exchange fails. *)
Theorem startServer_listens_once_a_token_is_granted (w : World) :
  validateConfig = true ->
  snd (startServer w) = snd (getToken w)
  /\ exchanges (trace (snd (startServer w))) = S (exchanges (trace w))
  /\ requests (trace (snd (startServer w)))
     = (requests (trace w)
          ++ [token_request (string_of_N (Date_now env (reads w)))])%list
  /\ (forall tk, fst (getToken w) = Return tk ->
                 fst (startServer w) = Return Listening
                 /\ token (snd (startServer w)) = tk)
  /\ (forall e, fst (getToken w) = Throw e ->
                fst (startServer w) = Return (Exited 1)
                /\ token (snd (startServer w)) = token w).
Proof.
  intro V.
  assert (S : snd (startServer w) = snd (getToken w)).
  { unfold startServer, try_catch, bind, ret. rewrite V. cbn [negb].
    now destruct (getToken w) as [[tk|e] w']. }
  rewrite S. split; [reflexivity|]. split; [apply getToken_exchanges|]. split.
  { rewrite getToken_trace, requests_app. reflexivity. }
  split.
  - intros tk R. destruct (getToken_returns w tk R) as [T _]. split; [|exact T].
    unfold startServer, try_catch, bind, ret. rewrite V. cbn [negb].
    destruct (getToken w) as [[tk'|e] w']; [reflexivity | discriminate].
  - intros e R. split; [|now apply (getToken_throw_keeps_token w e)].
    unfold startServer, try_catch, bind, ret. rewrite V. cbn [negb].
    destruct (getToken w) as [[tk'|e'] w']; [discriminate | reflexivity].
Qed.

(* ================================================================== *)
(** * Further properties: the signer *)

Lemma comes_before_plain (k k' : string) : array_index k = None -> comes_before k k' = false.
Proof. unfold comes_before. now intros ->. Qed.

(** A key that is no array index is enumerated last when it is new. *)
Lemma insert_new_plain (o : object) (k : string) (v : value) :
  array_index k = None -> insert_new o k v = (o ++ [(k, v)])%list.
Proof.
  intro A. induction o as [|[k' v'] o IH]; simpl; [reflexivity|].
  rewrite (comes_before_plain k k' A). now rewrite IH.
Qed.

Lemma set_many_plain (f : string -> value) (ks : list string) (o : object) :
  NoDup ks ->
  (forall k, In k ks -> array_index k = None /\ ~ In k (Object_keys o)) ->
  fold_left (fun acc k => set acc k (f k)) ks o = (o ++ map (fun k => (k, f k)) ks)%list.
Proof.
  revert o. induction ks as [|k ks IH]; intros o N P; simpl; [now rewrite app_nil_r|].
  inversion N as [|? ? Nk N']; subst.
  destruct (P k (or_introl eq_refl)) as [A F].
  assert (H : has o k = false).
  { destruct (has o k) eqn:E; [|reflexivity]. apply has_In in E. contradiction. }
  rewrite IH; [|exact N'|].
  - unfold set. rewrite H, insert_new_plain by exact A. now rewrite <- app_assoc.
  - intros k' I. destruct (P k' (or_intror I)) as [A' F']. split; [exact A'|].
    rewrite In_keys_set. intros [->|I']; contradiction.
Qed.

(** The canonical query of parameters none of which is named by an array
    index: the parameters in the sorted order of their names. *)
Lemma sortedQuery_of_plain (queryMerged : object) :
  NoDup (Object_keys queryMerged) ->
  (forall k, In k (Object_keys queryMerged) -> array_index k = None) ->
  sortedQuery_of queryMerged
  = map (fun k => (k, prop queryMerged k)) (sort (Object_keys queryMerged)).
Proof.
  intros N P. unfold sortedQuery_of. rewrite set_many_plain; [reflexivity| |].
  - apply (Permutation_NoDup (Permutation_sym (sort_perm _)) N).
  - intros k I. apply (proj1 (In_sort _ _)) in I. split; [exact (P k I) | intros []].
Qed.

(** X15: when the parameter names are ASCII and none is an array index,
    the canonical query lists the merged parameters in ascending order of
    code units, each with its value.  Names that are array indices are
    listed first and in numeric order whatever the sort made of them: [9]
    before [10]. *)
Theorem canonical_query_is_sorted_but_for_indices :
  (forall queryMerged,
      NoDup (Object_keys queryMerged) ->
      (forall k, In k (Object_keys queryMerged) -> ascii_text k = true) ->
      (forall k, In k (Object_keys queryMerged) -> array_index k = None) ->
      Object_keys (sortedQuery_of queryMerged) = sort (Object_keys queryMerged)
      /\ StronglySorted le_string (Object_keys (sortedQuery_of queryMerged))
      /\ Forall (fun k => ascii_text k = true) (Object_keys (sortedQuery_of queryMerged))
      /\ forall k, get (sortedQuery_of queryMerged) k = get queryMerged k)
  /\ (forall v v',
         sort (Object_keys [("9", v); ("10", v')]) = ["10"; "9"]
         /\ sortedQuery_of [("9", v); ("10", v')] = [("9", v); ("10", v')]).
Proof.
  split; [|intros; split; reflexivity].
  intros queryMerged N A P.
  assert (K : Object_keys (sortedQuery_of queryMerged) = sort (Object_keys queryMerged)).
  { rewrite (sortedQuery_of_plain queryMerged N P). unfold Object_keys.
    rewrite map_map. apply map_id. }
  split; [exact K|]. split; [rewrite K; apply sort_sorted|].
  split; [|apply get_sortedQuery_of].
  rewrite K. apply Forall_forall. intros k I. apply A. now apply In_sort.
Qed.

(** [getRequestSign] reads its path through [split('?')] only: the part
    before the first [?] and the part between the first and the second. *)
Lemma getRequestSign_path_ext (path1 path2 method : string) (headers : object)
      (query : loc) (body : value) (w : World) :
  uri_of path1 = uri_of path2 ->
  pathQuery_of path1 = pathQuery_of path2 ->
  getRequestSign path1 method headers query body w
  = getRequestSign path2 method headers query body w.
Proof. intros U Q. rewrite !getRequestSign_run. cbv zeta. now rewrite U, Q. Qed.

(** A call with the token held, on a path without a query string, when the
    platform reads no parameters from no query string and writes none for
    none. *)
Lemma held_call_run (method url : string) (body : value) (data : option value)
      (w : World) (json : string) :
  qs_parse platform None = [] ->
  qs_stringify platform [] = "" ->
  decodeURIComponent platform "" = Some "" ->
  uri_of url = url ->
  pathQuery_of url = None ->
  JSON_stringify (or_empty body) = Some json ->
  token w <> "" ->
  let t := string_of_N (Date_now env (reads w)) in
  let r := {| req_method := method; req_url := url;
              req_headers :=
                [ ("t", t); ("path", url); ("client_id", accessKey config);
                  ("sign",
                   encryptStr (accessKey config ++ token w ++ t
                                 ++ join LF [method; sha256_hex json; ""; url])
                              (secretKey config));
                  ("sign_method", "HMAC-SHA256"); ("access_token", token w) ];
              req_data := data |} in
  let out := (ensureToken ;; signed_call method url body data) w in
  trace (snd out) = (trace w ++ [Enter_getRequestSign; Sent r])%list
  /\ token (snd out) = token w
  /\ forall d, fst out = Return d
               <-> upstream env (trace w ++ [Enter_getRequestSign]) r = Answered (Some d)
                   /\ success d = true.
Proof.
  intros P S D U Q J T. cbv zeta. unfold bind at 1 2 3.
  rewrite (ensureToken_held _ T), signed_call_run. cbv zeta.
  rewrite getRequestSign_run. cbv zeta. cbn [token heap reads trace].
  rewrite Q, P. unfold deref_in. rewrite nth_middle.
  change (sortedQuery_of (Object_assign [] [])) with (@nil (string * value)).
  rewrite S, D, J, U. unfold url_of. cbn [truthy headers_of sg_t sg_path sg_client_id sg_sign
                                           sg_sign_method sg_access_token token trace].
  split; [|split].
  - destruct (upstream env _ _) as [m|[d|]]; [|destruct (success d)|];
      cbn [negb snd trace]; now rewrite <- app_assoc.
  - destruct (upstream env _ _) as [m|[d|]]; [|destruct (success d)|]; reflexivity.
  - intro d. destruct (upstream env _ _) as [m|[d'|]]; cbn [fst].
    + split; [discriminate | intros [? _]; discriminate].
    + destruct (success d') eqn:E; cbn [negb fst].
      * split; [intros [= <-]; now split | intros [[= <-] _]; reflexivity].
      * split; [discriminate | intros [[= <-] X]; congruence].
    + split; [discriminate | intros [? _]; discriminate].
Qed.

(* ================================================================== *)
(** * Further properties: the token over a session *)

Lemma guarded_call_token (method url : string) (body : value) (data : option value)
      (w : World) :
  token (snd ((ensureToken ;; signed_call method url body data) w))
  = token (snd (ensureToken w)).
Proof.
  unfold bind. destruct (ensureToken w) as [[[]|e] w1]; [|reflexivity].
  now destruct (signed_call_cases method url body data w1) as [T _].
Qed.

(** The guard changes the token only to one the provider has just granted,
    and only when none was held. *)
Lemma ensureToken_token (w : World) :
  token (snd (ensureToken w)) <> token w ->
  token w = ""
  /\ exists login,
       exchange_reply w = Answered (Some login)
       /\ success login = true
       /\ access_token login = Some (token (snd (ensureToken w))).
Proof.
  destruct (truthy (token w)) eqn:H.
  - rewrite ensureToken_held by now apply truthy_iff. simpl. congruence.
  - assert (C : token w = "") by (destruct (token w); [reflexivity | discriminate]).
    rewrite (ensureToken_cold _ C). split; [exact C|].
    pose proof (getToken_returns w) as R.
    pose proof (getToken_throw_keeps_token w) as K.
    destruct (getToken w) as [[tk|e] w1]; simpl in *.
    + destruct (R tk eq_refl) as [T L]. now rewrite T.
    + specialize (K e eq_refl). congruence.
Qed.

(** X20: when the provider answers the token exchange with [success] true
    and an [access_token], [getToken] returns that token and holds it in
    place of whatever was held; the refresh route then answers 200 and the
    timer's callback returns, each leaving the state [getToken] leaves. *)
Theorem granted_token_replaces_the_held_one (w : World) (login : Envelope) (tk : string) :
  exchange_reply w = Answered (Some login) ->
  success login = true ->
  access_token login = Some tk ->
  fst (getToken w) = Return tk
  /\ token (snd (getToken w)) = tk
  /\ (exists res, fst (post_token_refresh w) = Return res /\ res_status res = 200)
  /\ snd (post_token_refresh w) = snd (getToken w)
  /\ refresh_tick w = (Return tt, snd (getToken w)).
Proof.
  unfold exchange_reply. intros X S A.
  assert (G : fst (getToken w) = Return tk /\ token (snd (getToken w)) = tk).
  { rewrite getToken_run. cbv zeta. rewrite X, S, A. split; reflexivity. }
  destruct G as [G T]. split; [exact G|]. split; [exact T|].
  rewrite post_token_refresh_run. unfold refresh_tick, try_catch, bind, ret.
  destruct (getToken w) as [[tk'|e] w1]; [|discriminate].
  split; [eexists; split; reflexivity|]. split; reflexivity.
Qed.

(** X21: a route changes the token only in [getToken], after the one
    token exchange it makes has been answered by the provider with an
    envelope whose [success] is true, and only when no token was held or
    the route is the manual refresh. *)
Theorem routes_change_the_token_only_after_a_successful_exchange (c : Call) (w : World) :
  token (snd (handle c w)) <> token w ->
  (token w = "" \/ c = POST_token_refresh)
  /\ exchanges (trace (snd (handle c w))) = S (exchanges (trace w))
  /\ exists login,
       exchange_reply w = Answered (Some login) /\ success login = true.
Proof.
  destruct (handle_cases c w)
    as [[res [E [S F]]]
       | [[method [rest [body [data [ok [err E]]]]]]
         | [-> | [color [_ [_ [_ [res [E [S F]]]]]]]]]].
  - rewrite E. simpl. congruence.
  - assert (T : token (snd (handle c w)) = token (snd (ensureToken w))).
    { rewrite E, <- (guarded_call_token method ("/v1.0/devices/" ++ rest) body data w).
      now destruct (bind ensureToken _ w) as [[d|e] w']. }
    assert (X : trace (snd (handle c w))
                = trace (snd ((ensureToken
                                 ;; signed_call method ("/v1.0/devices/" ++ rest) body data)
                                w))).
    { rewrite E. now destruct (bind ensureToken _ w) as [[d|e] w']. }
    rewrite T, X. intro N. destruct (ensureToken_token w N) as [C [login [R [L _]]]].
    split; [now left|]. split; [|now exists login].
    destruct (guarded_call_budget method rest body data w) as [tail [-> [B _]]].
    rewrite C in B. rewrite exchanges_app, B. simpl. lia.
  - cbn [handle]. rewrite post_token_refresh_run.
    pose proof (getToken_returns w) as R.
    pose proof (getToken_throw_keeps_token w) as K.
    pose proof (getToken_exchanges w) as X.
    destruct (getToken w) as [[tk|e] w1]; simpl in *; intro N.
    + split; [now right|]. split; [exact X|].
      destruct (R tk eq_refl) as [_ [login [Y [L _]]]]. now exists login.
    + specialize (K e eq_refl). congruence.
  - rewrite E. simpl. congruence.
Qed.

(** One route with a token held, the refresh apart: it answers, makes no
    exchange, keeps the token, and what it sends carries that token. *)
Lemma handle_held (c : Call) (w : World) :
  token w <> "" ->
  c <> POST_token_refresh ->
  exists res tail,
    fst (handle c w) = Return res
    /\ trace (snd (handle c w)) = (trace w ++ tail)%list
    /\ exchanges tail = 0
    /\ token (snd (handle c w)) = token w
    /\ forall r, In (Sent r) tail -> In ("access_token", token w) (req_headers r).
Proof.
  intros H N.
  destruct (handle_cases c w)
    as [[res [E [S F]]]
       | [[method [rest [body [data [ok [err E]]]]]]
         | [-> | [color [_ [_ [_ [res [E [S F]]]]]]]]]];
    [ | | contradiction
    | exists res, []; rewrite E; simpl; rewrite app_nil_r; repeat split; intros r [] ].
  - exists res, []. rewrite E. simpl. rewrite app_nil_r. repeat split. intros r [].
  - rewrite E. unfold bind. rewrite (ensureToken_held _ H).
    destruct (signed_call_cases method ("/v1.0/devices/" ++ rest) body data w)
      as [T [[e [X Tr]] | [r [Tr [_ [_ [U [A _]]]]]]]].
    + destruct (signed_call _ _ _ _ w) as [[d|e'] w']; simpl in *; [discriminate|].
      eexists. exists [Enter_getRequestSign]. repeat split; try assumption.
      intros r [[=]|[]].
    + destruct (device_tail rest [Enter_getRequestSign; Sent r]) as [Z _]; [right; eauto|].
      destruct (signed_call _ _ _ _ w) as [[d|e'] w']; simpl in *;
        eexists; exists [Enter_getRequestSign; Sent r]; repeat split; try assumption;
        intros r' [[=]|[[= <-]|[]]]; exact A.
Qed.

(** X22: over any run of requests served with a token held, the manual
    refresh not among them, every request is answered, no token exchange is
    made, the token held at the end is the one held at the start, and every
    request sent to the provider carries it: a token, once held, is never
    renewed on demand. *)
Theorem held_token_serves_the_whole_session (calls : list Call) (w : World) :
  token w <> "" ->
  Forall (fun c => c <> POST_token_refresh) calls ->
  exists answers tail,
    fst (serve calls w) = Return answers
    /\ List.length answers = List.length calls
    /\ trace (snd (serve calls w)) = (trace w ++ tail)%list
    /\ exchanges tail = 0
    /\ token (snd (serve calls w)) = token w
    /\ forall r, In (Sent r) tail -> In ("access_token", token w) (req_headers r).
Proof.
  intros H F. revert w H. induction F as [|c calls N F IH]; intros w H.
  - exists [], []. simpl. rewrite app_nil_r. repeat split. intros r [].
  - destruct (handle_held c w H N) as [res [tail [R [Tr [X [T A]]]]]].
    cbn [serve]. unfold bind, ret.
    destruct (handle c w) as [[res'|e] w1]; simpl in R, Tr, T; [|discriminate].
    assert (H1 : token w1 <> "") by congruence.
    destruct (IH w1 H1) as [answers [tail' [R' [L' [Tr' [X' [T' A']]]]]]].
    destruct (serve calls w1) as [[answers'|e] w2]; simpl in *; [|discriminate].
    injection R' as ->.
    exists (res' :: answers), (tail ++ tail')%list. repeat split.
    + simpl. now rewrite L'.
    + now rewrite Tr', Tr, app_assoc.
    + now rewrite exchanges_app, X, X'.
    + congruence.
    + intros r I. apply in_app_or in I as [I|I]; [now apply A|].
      rewrite <- T. now apply A'.
Qed.

End Relay.

(* ================================================================== *)
(** * [qs] on parameters with distinct plain names *)

Lemma plain_cons (c : ascii) (s : string) :
  plain (String c s) = true -> special c = false /\ plain s = true.
Proof. simpl. rewrite andb_true_iff, negb_true_iff. tauto. Qed.

Lemma avoids_cons (x c : ascii) (s : string) :
  avoids x (String c s) = true -> Ascii.eqb c x = false /\ avoids x s = true.
Proof. simpl. rewrite andb_true_iff, negb_true_iff. tauto. Qed.

Lemma avoids_app (x : ascii) (a b : string) :
  avoids x (a ++ b) = avoids x a && avoids x b.
Proof. induction a as [|c a IH]; simpl; [reflexivity | now rewrite IH, andb_assoc]. Qed.

Lemma plain_avoids (x : ascii) (s : string) :
  special x = true -> plain s = true -> avoids x s = true.
Proof.
  intro X. induction s as [|c s IH]; [reflexivity|].
  intro P. apply plain_cons in P as [S P]. simpl. rewrite (IH P), andb_true_r.
  apply negb_true_iff. destruct (Ascii.eqb_spec c x) as [->|]; congruence.
Qed.

Lemma avoids_In (x : ascii) (s : string) :
  avoids x s = true -> forall c, In c (list_ascii_of_string s) -> c <> x.
Proof.
  induction s as [|d s IH]; intros A c I; [contradiction|].
  apply avoids_cons in A as [N A]. destruct I as [<-|I]; [|now apply IH].
  now apply Ascii.eqb_neq.
Qed.

Lemma avoids_join (x : ascii) (sep : string) (pieces : list string) :
  avoids x sep = true ->
  Forall (fun p => avoids x p = true) pieces ->
  avoids x (join sep pieces) = true.
Proof.
  intros S F. induction F as [|p pieces Pp F IH]; [reflexivity|].
  destruct pieces as [|q pieces]; [exact Pp|].
  change (join sep (p :: q :: pieces)) with (p ++ sep ++ join sep (q :: pieces)).
  now rewrite !avoids_app, Pp, S, IH.
Qed.

Lemma clean_without_percent (s : string) : avoids "%" s = true -> Qs.clean s = s.
Proof.
  induction s as [|c s IH]; [reflexivity|].
  intro A. apply avoids_cons in A as [N A].
  cbn [Qs.clean]. rewrite N, (IH A). simpl. destruct s as [|d [|e s']]; reflexivity.
Qed.

(** ** [split] undoes [join] on pieces free of the separator *)

Lemma split_piece (x : ascii) (p : string) : avoids x p = true -> split x p = [p].
Proof.
  induction p as [|c p IH]; [reflexivity|].
  intro A. apply avoids_cons in A as [N A]. cbn [split]. now rewrite N, (IH A).
Qed.

Lemma split_piece_app (x : ascii) (p rest : string) :
  avoids x p = true -> split x (p ++ String x rest) = p :: split x rest.
Proof.
  induction p as [|c p IH].
  - intros _. cbn [append split]. now rewrite Ascii.eqb_refl.
  - intro A. apply avoids_cons in A as [N A]. cbn [append split]. now rewrite N, (IH A).
Qed.

Lemma split_join (pieces : list string) :
  pieces <> [] ->
  Forall (fun p => avoids "&" p = true) pieces ->
  split "&" (join "&" pieces) = pieces.
Proof.
  induction pieces as [|p pieces IH]; [congruence|].
  intros _ F. inversion F as [|? ? Pp Fr]; subst.
  destruct pieces as [|q pieces].
  - simpl. now apply split_piece.
  - change (join "&" (p :: q :: pieces)) with (p ++ String "&" (join "&" (q :: pieces))).
    rewrite split_piece_app by exact Pp. f_equal. apply IH; [discriminate | exact Fr].
Qed.

(** ** One [name=value] *)

Lemma index_absent (a : ascii) (needle s : string) :
  avoids a s = true -> index 0 (String a needle) s = None.
Proof.
  induction s as [|c s IH]; intro A; [reflexivity|].
  apply avoids_cons in A as [N A]. cbn [index prefix].
  destruct (ascii_dec a c) as [->|_]; [now rewrite Ascii.eqb_refl in N|].
  now rewrite (IH A).
Qed.

Lemma index_equals (k v : string) :
  avoids "=" k = true -> index 0 "=" (k ++ "=" ++ v) = Some (String.length k).
Proof.
  induction k as [|c k IH]; intro A.
  - cbn [append index prefix]. destruct (ascii_dec "=" "="); [|congruence].
    destruct v; reflexivity.
  - apply avoids_cons in A as [N A]. cbn [append index prefix String.length].
    destruct (ascii_dec "=" c) as [<-|_]; [discriminate|].
    change (String "=" v) with ("=" ++ v) in *. now rewrite (IH A).
Qed.

Lemma substring_head (k rest : string) : substring 0 (String.length k) (k ++ rest) = k.
Proof.
  induction k as [|c k IH]; simpl; [destruct rest; reflexivity | now rewrite IH].
Qed.

Lemma substring_whole (s : string) : substring 0 (String.length s) s = s.
Proof. induction s as [|c s IH]; simpl; [reflexivity | now rewrite IH]. Qed.

Lemma substring_tail (k v : string) :
  substring (S (String.length k))
            (String.length (k ++ "=" ++ v) - S (String.length k)) (k ++ "=" ++ v)
  = v.
Proof.
  induction k as [|c k IH].
  - cbn [append String.length substring]. rewrite Nat.sub_succ, Nat.sub_0_r.
    apply substring_whole.
  - cbn [append String.length substring]. rewrite Nat.sub_succ. exact IH.
Qed.

Lemma map_string_id (f : ascii -> ascii) (s : string) :
  (forall c, In c (list_ascii_of_string s) -> f c = c) -> map_string f s = s.
Proof.
  unfold map_string. induction s as [|c s IH]; intro F; simpl; [reflexivity|].
  rewrite (F c) by now left. f_equal. apply IH. intros x I. apply F. now right.
Qed.

Lemma tokens_without_percent (s : string) :
  avoids "%" s = true -> Uri.tokens s = Some (map Uri.Lit (list_ascii_of_string s)).
Proof.
  induction s as [|c s IH]; [reflexivity|].
  intro A. apply avoids_cons in A as [N A]. cbn [Uri.tokens]. now rewrite N, (IH A).
Qed.

Lemma well_formed_literals (cs : list ascii) : Uri.well_formed [] (map Uri.Lit cs) = true.
Proof. induction cs as [|c cs IH]; simpl; [reflexivity | exact IH]. Qed.

(** Text without a [%] decodes to itself. *)
Lemma decode_without_percent (s : string) : avoids "%" s = true -> Uri.decode s = Some s.
Proof.
  intro A. unfold Uri.decode. rewrite (tokens_without_percent s A), well_formed_literals.
  rewrite map_map. cbn [Uri.char_of]. now rewrite map_id, string_of_list_ascii_of_string.
Qed.

Lemma decoder_plain (s : string) : plain s = true -> Qs.decoder s = s.
Proof.
  intro P. unfold Qs.decoder.
  assert (E : map_string Qs.plus_to_space s = s).
  { apply map_string_id. intros c I. unfold Qs.plus_to_space.
    destruct (Ascii.eqb_spec c "+") as [->|]; [|reflexivity].
    exfalso. now apply (avoids_In "+" s (plain_avoids "+" s eq_refl P) "+"%char I). }
  now rewrite E, (decode_without_percent s (plain_avoids "%" s eq_refl P)).
Qed.

Lemma parse_part_plain (k v : string) :
  plain k = true -> plain v = true -> Qs.parse_part (k ++ "=" ++ v) = (k, VStr v).
Proof.
  intros Pk Pv. unfold Qs.parse_part.
  rewrite index_absent.
  - rewrite (index_equals k v (plain_avoids "=" k eq_refl Pk)), substring_head, substring_tail.
    now rewrite (decoder_plain k Pk), (decoder_plain v Pv).
  - rewrite !avoids_app, (plain_avoids "]" k eq_refl Pk), (plain_avoids "]" v eq_refl Pv).
    reflexivity.
Qed.

(** ** A whole query string *)

Lemma has_set (o : object) (k k' : string) (v : value) :
  has (set o k v) k' = String.eqb k' k || has o k'.
Proof.
  apply eq_true_iff_eq. rewrite orb_true_iff, !has_In, In_keys_set, String.eqb_eq. tauto.
Qed.

Lemma lookup_absent (ps : list (string * string)) (k : string) :
  ~ In k (map fst ps) -> lookup ps k = None.
Proof.
  induction ps as [|[k' v] ps IH]; simpl; [reflexivity|].
  intro N. destruct (String.eqb_spec k k') as [->|]; [tauto|]. apply IH. tauto.
Qed.

Lemma lookup_In (ps : list (string * string)) (k v : string) :
  NoDup (map fst ps) -> lookup ps k = Some v <-> In (k, v) ps.
Proof.
  induction ps as [|[k' v'] ps IH]; simpl; intro N.
  - split; [discriminate | tauto].
  - inversion N as [|? ? Nk Nr]; subst.
    destruct (String.eqb_spec k k') as [->|D].
    + split.
      * intro E. left. congruence.
      * intros [E|I]; [congruence|]. exfalso. apply Nk. apply (in_map fst) in I. exact I.
    + rewrite (IH Nr). split; [tauto|]. intros [E|I]; [congruence | exact I].
Qed.

(** With distinct names, the order of the list does not matter to [lookup]. *)
Lemma lookup_Permutation (ps1 ps2 : list (string * string)) (k : string) :
  NoDup (map fst ps1) -> Permutation ps1 ps2 -> lookup ps1 k = lookup ps2 k.
Proof.
  intros N1 P.
  assert (N2 : NoDup (map fst ps2)) by (eapply Permutation_NoDup; [apply Permutation_map, P | exact N1]).
  destruct (lookup ps1 k) as [v|] eqn:E1.
  - symmetry. apply lookup_In; [exact N2|]. apply (Permutation_in _ P).
    now apply lookup_In.
  - destruct (lookup ps2 k) as [v|] eqn:E2; [|reflexivity].
    apply lookup_In in E2; [|exact N2].
    apply (Permutation_in _ (Permutation_sym P)) in E2. apply lookup_In in E2; [|exact N1].
    congruence.
Qed.

Lemma get_set_pairs (ps : list (string * string)) (acc : object) (k : string) :
  NoDup (map fst ps) ->
  get (fold_left (fun o kv => set o (fst kv) (VStr (snd kv))) ps acc) k
  = match lookup ps k with
    | Some v => Some (VStr v)
    | None => get acc k
    end.
Proof.
  revert acc. induction ps as [|[k0 v0] ps IH]; intros acc N; simpl; [reflexivity|].
  inversion N as [|? ? Nk Nr]; subst. rewrite (IH _ Nr), get_set.
  destruct (String.eqb_spec k k0) as [->|]; [|reflexivity].
  now rewrite (lookup_absent ps k0 Nk).
Qed.

(** The first pass of [qs.parse]: no name repeats, so no value is combined. *)
Lemma parseValues_pairs (ps : list (string * string)) (acc : object) :
  Forall readable ps ->
  NoDup (map fst ps) ->
  (forall kv, In kv ps -> has acc (fst kv) = false) ->
  fold_left
    (fun o part =>
       let (key, val) := Qs.parse_part part in
       if has o key then set o key (Qs.combine (prop o key) val) else set o key val)
    (map (fun kv => fst kv ++ "=" ++ snd kv) ps) acc
  = fold_left (fun o kv => set o (fst kv) (VStr (snd kv))) ps acc.
Proof.
  revert acc. induction ps as [|[k v] ps IH]; intros acc F N A; [reflexivity|].
  inversion F as [|? ? [Pk [Pv _]] Fr]; subst. inversion N as [|? ? Nk Nr]; subst.
  assert (H : has acc k = false) by (apply (A (k, v)); now left).
  cbn [map fold_left fst snd]. rewrite (parse_part_plain k v Pk Pv), H.
  apply IH; trivial.
  intros kv I. rewrite has_set, (A kv) by now right.
  destruct (String.eqb_spec (fst kv) k) as [E|]; [|reflexivity].
  exfalso. apply Nk. rewrite <- E. now apply in_map.
Qed.

Lemma query_string_avoids (x : ascii) (ps : list (string * string)) :
  special x = true -> Ascii.eqb "&" x = false -> Ascii.eqb "=" x = false ->
  Forall readable ps -> avoids x (query_string ps) = true.
Proof.
  intros X Na Ne F. unfold query_string. apply avoids_join.
  - cbn [avoids]. now rewrite Na.
  - apply Forall_map. eapply Forall_impl; [|exact F].
    intros [k v] [Pk [Pv _]]. cbn [fst snd].
    rewrite !avoids_app, (plain_avoids x k X Pk), (plain_avoids x v X Pv).
    cbn [avoids]. now rewrite Ne.
Qed.

Lemma query_string_pieces (ps : list (string * string)) :
  Forall readable ps ->
  Forall (fun p => avoids "&" p = true) (map (fun kv => fst kv ++ "=" ++ snd kv) ps).
Proof.
  intro F. apply Forall_map. eapply Forall_impl; [|exact F].
  intros [k v] [Pk [Pv _]]. cbn [fst snd].
  now rewrite !avoids_app, (plain_avoids "&" k eq_refl Pk), (plain_avoids "&" v eq_refl Pv).
Qed.

(** What [qs.parse] reads in a query string of readable parameters with
    distinct names: each name with its value. *)
Lemma get_parse_query_string (ps : list (string * string)) (k : string) :
  Forall readable ps ->
  NoDup (map fst ps) ->
  List.length ps <= Qs.parameterLimit ->
  get (Qs.parse (Some (query_string ps))) k = option_map VStr (lookup ps k).
Proof.
  intros F N L. destruct ps as [|[k0 v0] ps]; [reflexivity|].
  assert (K0 : Qs.kept k0 = true) by (inversion F as [|? ? [_ [_ K]] _]; exact K).
  destruct k0 as [|c k0']; [discriminate|].
  set (all := (String c k0', v0) :: ps) in *.
  assert (Q : exists r, query_string all = String c r).
  { unfold query_string, all. cbn [map fst snd]. destruct ps; cbn; eauto. }
  destruct Q as [r Q]. unfold Qs.parse. rewrite Q, <- Q. clear r Q.
  assert (T : Qs.parseValues (query_string all)
              = fold_left (fun o kv => set o (fst kv) (VStr (snd kv))) all []).
  { unfold Qs.parseValues.
    rewrite clean_without_percent
      by (apply query_string_avoids; trivial; reflexivity).
    unfold query_string at 1.
    rewrite split_join; [|unfold all; discriminate | now apply query_string_pieces].
    rewrite firstn_all2 by (rewrite length_map; exact L).
    apply parseValues_pairs; trivial. }
  rewrite T. clear T.
  set (tempObj := fold_left (fun o kv => set o (fst kv) (VStr (snd kv))) all []).
  assert (G : forall x, get tempObj x = option_map VStr (lookup all x)).
  { intro x. unfold tempObj. rewrite (get_set_pairs all [] x N).
    destruct (lookup all x); reflexivity. }
  assert (Kp : forall x, In x (Object_keys tempObj) -> Qs.kept x = true).
  { intros x I. apply In_keys_get in I. rewrite G in I.
    destruct (lookup all x) as [v|] eqn:E; [|now elim I].
    apply lookup_In in E; [|exact N]. rewrite Forall_forall in F.
    apply (F (x, v) E). }
  assert (S : forall keys o,
             (forall x, In x keys -> Qs.kept x = true) ->
             fold_left (fun obj key => if Qs.kept key then set obj key (prop tempObj key) else obj)
                       keys o
             = fold_left (fun obj key => set obj key (prop tempObj key)) keys o).
  { induction keys as [|x keys IH]; intros o A; [reflexivity|].
    cbn [fold_left]. rewrite (A x) by now left. apply IH. intros y I. apply A. now right. }
  rewrite (S _ _ Kp), get_set_many, has_existsb, <- G.
  destruct (has tempObj k) eqn:H.
  - symmetry. now apply get_prop.
  - symmetry. now apply get_none.
Qed.

Lemma path_with_query (uri q : string) :
  avoids "?" uri = true -> avoids "?" q = true ->
  uri_of (uri ++ "?" ++ q) = uri /\ pathQuery_of (uri ++ "?" ++ q) = Some q.
Proof.
  intros U Q. unfold uri_of, pathQuery_of.
  change (uri ++ "?" ++ q) with (uri ++ String "?" q).
  now rewrite (split_piece_app "?" uri q U), (split_piece "?" q Q).
Qed.

(** C5, as the code has it.  Two paths with the same [uri] get the same
    headers (the same canonical [path], the same [sign]) from
    [getRequestSign], for the same clock reading, token and body, whenever
    [qs.parse] reads the same parameters in their query strings, each name
    with the same value, in whatever order; and it does so when the query
    strings list, in two orders, parameters with distinct plain names, a
    thousand of them at most.  (The values of a repeated name are one
    array, kept in path order; of more than a thousand parameters [qs]
    reads the first thousand.) *)
Theorem signature_ignores_parameter_order :
  (forall platform config env path1 path2 method headers query body w,
      uri_of path1 = uri_of path2 ->
      (forall k, get (qs_parse platform (pathQuery_of path1)) k
                 = get (qs_parse platform (pathQuery_of path2)) k) ->
      NoDup (Object_keys (deref_in (heap w) query)) ->
      fst (getRequestSign platform config env path1 method headers query body w)
      = fst (getRequestSign platform config env path2 method headers query body w))
  /\ (forall config env uri ps1 ps2 method headers query body w,
         avoids "?" uri = true ->
         Forall readable ps1 ->
         NoDup (map fst ps1) ->
         List.length ps1 <= Qs.parameterLimit ->
         Permutation ps1 ps2 ->
         NoDup (Object_keys (deref_in (heap w) query)) ->
         fst (getRequestSign node config env (uri ++ "?" ++ query_string ps1)
                             method headers query body w)
         = fst (getRequestSign node config env (uri ++ "?" ++ query_string ps2)
                               method headers query body w)).
Proof.
  split; [intros; now apply same_parameters_same_headers|].
  intros config env uri ps1 ps2 method headers query body w U F1 N1 L1 P Nq.
  assert (F2 : Forall readable ps2) by (eapply Permutation_Forall; eassumption).
  assert (N2 : NoDup (map fst ps2))
    by (eapply Permutation_NoDup; [apply Permutation_map, P | exact N1]).
  assert (L2 : List.length ps2 <= Qs.parameterLimit)
    by (now rewrite <- (Permutation_length P)).
  assert (Q : forall ps, Forall readable ps -> avoids "?" (query_string ps) = true)
    by (intros; now apply query_string_avoids).
  destruct (path_with_query uri _ U (Q ps1 F1)) as [U1 Q1].
  destruct (path_with_query uri _ U (Q ps2 F2)) as [U2 Q2].
  apply same_parameters_same_headers; [congruence | | exact Nq].
  intro k. rewrite Q1, Q2. cbn [qs_parse node].
  rewrite !get_parse_query_string by assumption.
  now rewrite (lookup_Permutation ps1 ps2 k N1 P).
Qed.

(* ================================================================== *)
(** * Further properties: the configuration *)

Lemma truthy_or_else (v : option string) : truthy (or_else v "") = given v.
Proof. destruct v as [[|c s]|]; reflexivity. Qed.

Lemma given_or_else (v : option string) (fallback : string) :
  given v = true -> v = Some (or_else v fallback).
Proof. destruct v as [[|c s]|]; simpl; intro G; try discriminate; reflexivity. Qed.

Lemma validateConfig_load (e : ProcessEnv) :
  validateConfig (load e)
  = given (TUYA_ACCESS_KEY e) && given (TUYA_SECRET_KEY e) && given (TUYA_DEVICE_ID e).
Proof.
  unfold validateConfig, missing, load. cbn [accessKey secretKey deviceId].
  rewrite !truthy_or_else.
  destruct (given (TUYA_ACCESS_KEY e)), (given (TUYA_SECRET_KEY e)),
    (given (TUYA_DEVICE_ID e)); reflexivity.
Qed.

(** X16: [validateConfig] accepts exactly when the access key, the secret
    key and the device id are all set and not empty; [TUYA_HOST] plays no
    part, and the host is never empty.  When it accepts, the [config] holds
    the three variables as they are set. *)
Theorem validateConfig_needs_the_three_credentials (e : ProcessEnv) :
  validateConfig (load e)
  = given (TUYA_ACCESS_KEY e) && given (TUYA_SECRET_KEY e) && given (TUYA_DEVICE_ID e)
  /\ host (load e) <> ""
  /\ (validateConfig (load e) = true ->
      TUYA_ACCESS_KEY e = Some (accessKey (load e))
      /\ TUYA_SECRET_KEY e = Some (secretKey (load e))
      /\ TUYA_DEVICE_ID e = Some (deviceId (load e))).
Proof.
  split; [apply validateConfig_load|]. split.
  - unfold load. cbn [host]. destruct (TUYA_HOST e) as [[|c s]|]; discriminate.
  - rewrite validateConfig_load, !andb_true_iff. intros [[A S] D].
    unfold load. cbn [accessKey secretKey deviceId].
    repeat split; now apply given_or_else.
Qed.

(** X13: when the access key, the secret key or the device id is not set,
    or is empty, [validateConfig] rejects and [startServer] ends the process
    with exit code 1, having done nothing else: no token exchange, no
    request, no reading of the clock. *)
Theorem startServer_exits_on_missing_credential (env : Env) (e : ProcessEnv) (w : World) :
  given (TUYA_ACCESS_KEY e) && given (TUYA_SECRET_KEY e) && given (TUYA_DEVICE_ID e) = false ->
  validateConfig (load e) = false
  /\ startServer (load e) env w = (Return (Exited 1), w).
Proof.
  intro G. assert (V : validateConfig (load e) = false) by now rewrite validateConfig_load.
  split; [exact V | now apply startServer_rejected].
Qed.

(* ================================================================== *)
(** * Further properties: the hash and the signature as text *)

Lemma be_bytes_length (n : nat) (x : Z) : List.length (SHA256.be_bytes n x) = n.
Proof.
  revert x. induction n as [|n IH]; intro x; simpl; [reflexivity|].
  rewrite length_app, IH. simpl. lia.
Qed.

Lemma be_bytes_range (n : nat) (x : Z) :
  Forall (fun b => (0 <= b < 256)%Z) (SHA256.be_bytes n x).
Proof.
  revert x. induction n as [|n IH]; intro x; simpl; [constructor|].
  apply Forall_app. split; [apply IH|]. constructor; [|constructor].
  change 255%Z with (Z.ones 8). rewrite Z.land_ones by lia.
  apply Z.mod_pos_bound. reflexivity.
Qed.

Lemma compress_length (h block : list Z) :
  List.length h = 8 -> List.length (SHA256.compress h block) = 8.
Proof.
  intro L. unfold SHA256.compress. rewrite length_map, length_combine, L. reflexivity.
Qed.

Lemma digest_length (msg : list Z) : List.length (SHA256.digest msg) = 32.
Proof.
  unfold SHA256.digest.
  assert (L : forall blocks h, List.length h = 8 ->
                List.length (fold_left SHA256.compress blocks h) = 8).
  { induction blocks as [|b blocks IH]; intros h H; simpl; [exact H|].
    apply IH. now apply compress_length. }
  specialize (L (SHA256.chunks 64 (List.length (SHA256.pad msg) / 64) (SHA256.pad msg))
                SHA256.H0 eq_refl).
  destruct (fold_left _ _ _) as [|a [|b [|c [|d [|e [|f [|g [|h [|]]]]]]]]];
    try discriminate.
  cbn [flat_map]. rewrite !length_app, !be_bytes_length. reflexivity.
Qed.

Lemma digest_range (msg : list Z) : Forall (fun b => (0 <= b < 256)%Z) (SHA256.digest msg).
Proof.
  unfold SHA256.digest. apply Forall_flat_map, Forall_forall.
  intros x _. apply be_bytes_range.
Qed.

Lemma hex_digit_lower (n : Z) :
  (0 <= n < 16)%Z ->
  lower_hex (SHA256.hex_digit n) = true
  /\ upper_hex (upper_ascii (SHA256.hex_digit n)) = true.
Proof.
  intro R.
  assert (A : forallb (fun d => lower_hex (SHA256.hex_digit d)
                                && upper_hex (upper_ascii (SHA256.hex_digit d)))
                      (map Z.of_nat (seq 0 16)) = true) by reflexivity.
  rewrite forallb_forall in A. apply andb_true_iff, A, in_map_iff.
  exists (Z.to_nat n). split; [lia | apply in_seq; lia].
Qed.

Lemma nibbles (b : Z) :
  (0 <= b < 256)%Z -> (0 <= Z.shiftr b 4 < 16)%Z /\ (0 <= Z.land b 15 < 16)%Z.
Proof.
  intro R. split.
  - rewrite Z.shiftr_div_pow2 by lia. change (2 ^ 4)%Z with 16%Z. split.
    + apply Z.div_pos; lia.
    + apply Z.div_lt_upper_bound; lia.
  - change 15%Z with (Z.ones 4). rewrite Z.land_ones by lia.
    apply Z.mod_pos_bound. reflexivity.
Qed.

(** The hexadecimal text of a list of bytes: two digits a byte, all of
    them lower-case, and upper-case once through [toUpperCase]. *)
Lemma hex_text (bs : list Z) :
  Forall (fun b => (0 <= b < 256)%Z) bs ->
  String.length (SHA256.hex bs) = 2 * List.length bs
  /\ forallb lower_hex (list_ascii_of_string (SHA256.hex bs)) = true
  /\ String.length (toUpperCase (SHA256.hex bs)) = 2 * List.length bs
  /\ forallb upper_hex (list_ascii_of_string (toUpperCase (SHA256.hex bs))) = true.
Proof.
  intro F. unfold toUpperCase, map_string, SHA256.hex.
  assert (Len : forall l, String.length (string_of_list_ascii l) = List.length l).
  { induction l as [|c l IH]; simpl; [reflexivity | now rewrite IH]. }
  rewrite !list_ascii_of_string_of_list_ascii, !Len, length_map.
  induction F as [|b bs B F IH]; [repeat split|].
  destruct IH as [L [Lo [_ Up]]]. destruct (nibbles b B) as [Hi Low].
  destruct (hex_digit_lower _ Hi) as [H1 H2], (hex_digit_lower _ Low) as [H3 H4].
  cbn [flat_map app List.length map forallb].
  rewrite L, Lo, Up, H1, H2, H3, H4. repeat split; lia.
Qed.

(** X17: whatever is signed, [encryptStr] gives 64 characters, each one of
    [0-9A-F]; the content hash that goes into the string to sign is 64
    characters, each one of [0-9a-f]. *)
Theorem signature_is_64_upper_hex_digits (str secret : string) :
  String.length (encryptStr str secret) = 64
  /\ forallb upper_hex (list_ascii_of_string (encryptStr str secret)) = true
  /\ String.length (sha256_hex str) = 64
  /\ forallb lower_hex (list_ascii_of_string (sha256_hex str)) = true.
Proof.
  unfold encryptStr, hmac_sha256_hex, sha256_hex, SHA256.hmac.
  destruct (hex_text _ (digest_range
                          (map (Z.lxor 92) (SHA256.hmac_key (bytes_of_string secret))
                             ++ SHA256.digest
                                  (map (Z.lxor 54) (SHA256.hmac_key (bytes_of_string secret))
                                     ++ bytes_of_string str))%list))
    as [_ [_ [L U]]].
  destruct (hex_text _ (digest_range (bytes_of_string str))) as [L' [Lo _]].
  rewrite digest_length in L, L'. repeat split; assumption.
Qed.

(* ================================================================== *)
(** * Further properties: paths *)

Lemma path_with_two_queries (uri q rest : string) :
  avoids "?" uri = true -> avoids "?" q = true ->
  uri_of (uri ++ "?" ++ q ++ "?" ++ rest) = uri
  /\ pathQuery_of (uri ++ "?" ++ q ++ "?" ++ rest) = Some q.
Proof.
  intros U Q. unfold uri_of, pathQuery_of.
  change (uri ++ "?" ++ q ++ "?" ++ rest) with (uri ++ String "?" (q ++ String "?" rest)).
  rewrite (split_piece_app "?" uri _ U), (split_piece_app "?" q _ Q). split; reflexivity.
Qed.

(** X18: [getRequestSign] cuts its path at the second [?]: what follows it
    is neither signed nor in the path returned, whatever the platform. *)
Theorem path_is_cut_at_the_second_question_mark
        (platform : Platform) (config : Config) (env : Env)
        (uri q rest method : string) (headers : object) (query : loc) (body : value)
        (w : World) :
  avoids "?" uri = true ->
  avoids "?" q = true ->
  getRequestSign platform config env (uri ++ "?" ++ q ++ "?" ++ rest)
                 method headers query body w
  = getRequestSign platform config env (uri ++ "?" ++ q) method headers query body w.
Proof.
  intros U Q. destruct (path_with_two_queries uri q rest U Q) as [U2 Q2].
  destruct (path_with_query uri q U Q) as [U1 Q1].
  apply getRequestSign_path_ext; congruence.
Qed.

Lemma path_without_query (path : string) :
  avoids "?" path = true -> uri_of path = path /\ pathQuery_of path = None.
Proof.
  intro A. unfold uri_of, pathQuery_of. rewrite (split_piece "?" path A). split; reflexivity.
Qed.

(** X19: with a token held and a device id without [?], [controlDevice]
    sends exactly one request: a POST to [/v1.0/devices/<id>/commands]
    whose data is [{commands: [{code, value}]}] and whose headers carry the
    time read, the same path, the access key, the signature of
    [accessKey + token + t + stringToSign], the method of signing and the
    token held.  It returns exactly when the provider answers that request
    with an envelope whose [success] is true, and returns that envelope.
    This holds on any platform that reads no parameters from no query
    string and writes the empty string for no parameters. *)
Theorem held_token_command_is_one_signed_post
        (platform : Platform) (config : Config) (env : Env)
        (deviceId command : string) (val : value) (w : World) :
  qs_parse platform None = [] ->
  qs_stringify platform [] = "" ->
  decodeURIComponent platform "" = Some "" ->
  token w <> "" ->
  avoids "?" deviceId = true ->
  exists json,
    JSON_stringify (command_body command val) = Some json
    /\ let url := "/v1.0/devices/" ++ deviceId ++ "/commands" in
       let t := string_of_N (Date_now env (reads w)) in
       let r := {| req_method := "POST"; req_url := url;
                   req_headers :=
                     [ ("t", t); ("path", url); ("client_id", accessKey config);
                       ("sign",
                        encryptStr (accessKey config ++ token w ++ t
                                      ++ join LF ["POST"; sha256_hex json; ""; url])
                                   (secretKey config));
                       ("sign_method", "HMAC-SHA256"); ("access_token", token w) ];
                   req_data := Some (command_body command val) |} in
       let out := controlDevice platform config env deviceId command val w in
       trace (snd out) = (trace w ++ [Enter_getRequestSign; Sent r])%list
       /\ token (snd out) = token w
       /\ forall d, fst out = Return d
                    <-> upstream env (trace w ++ [Enter_getRequestSign]) r
                        = Answered (Some d) /\ success d = true.
Proof.
  intros P S D T A.
  destruct (JSON_stringify_or_empty (command_body command val)) as [json J].
  exists json. split; [exact J|]. cbv zeta.
  assert (A' : avoids "?" ("/v1.0/devices/" ++ deviceId ++ "/commands") = true).
  { rewrite !avoids_app, A. reflexivity. }
  destruct (path_without_query _ A') as [U Q].
  rewrite controlDevice_guarded.
  exact (held_call_run platform config env "POST" _ (command_body command val)
                       (Some (command_body command val)) w json P S D U Q J T).
Qed.

(** X23: with a token held and a device id without [?], [getDeviceInfo]
    sends exactly one request: a GET to [/v1.0/devices/<id>] without data,
    whose signature is made over the hash of the text [{}]; it returns
    exactly when the provider answers that request with an envelope whose
    [success] is true. *)
Theorem held_token_query_is_one_signed_get
        (platform : Platform) (config : Config) (env : Env)
        (deviceId : string) (w : World) :
  qs_parse platform None = [] ->
  qs_stringify platform [] = "" ->
  decodeURIComponent platform "" = Some "" ->
  token w <> "" ->
  avoids "?" deviceId = true ->
  let url := "/v1.0/devices/" ++ deviceId in
  let t := string_of_N (Date_now env (reads w)) in
  let r := {| req_method := "GET"; req_url := url;
              req_headers :=
                [ ("t", t); ("path", url); ("client_id", accessKey config);
                  ("sign",
                   encryptStr (accessKey config ++ token w ++ t
                                 ++ join LF ["GET"; sha256_hex "{}"; ""; url])
                              (secretKey config));
                  ("sign_method", "HMAC-SHA256"); ("access_token", token w) ];
              req_data := None |} in
  let out := getDeviceInfo platform config env deviceId w in
  trace (snd out) = (trace w ++ [Enter_getRequestSign; Sent r])%list
  /\ token (snd out) = token w
  /\ forall d, fst out = Return d
               <-> upstream env (trace w ++ [Enter_getRequestSign]) r = Answered (Some d)
                   /\ success d = true.
Proof.
  intros P S D T A. cbv zeta.
  assert (A' : avoids "?" ("/v1.0/devices/" ++ deviceId) = true).
  { rewrite avoids_app, A. reflexivity. }
  destruct (path_without_query _ A') as [U Q].
  rewrite getDeviceInfo_guarded.
  exact (held_call_run platform config env "GET" _ (VObj []) None w "{}"
                       P S D U Q eq_refl T).
Qed.

(* ================================================================== *)
(** * Further properties: the canonical path *)

Lemma unreserved_not_special (c : ascii) : Uri.unreserved c = true -> special c = false.
Proof.
  destruct c as [[] [] [] [] [] [] [] []]; intro U; vm_compute in U |- *; congruence.
Qed.

Lemma unreserved_plain (s : string) :
  forallb Uri.unreserved (list_ascii_of_string s) = true -> plain s = true.
Proof.
  induction s as [|c s IH]; [reflexivity|]. simpl. rewrite andb_true_iff.
  intros [U F]. now rewrite (unreserved_not_special c U), (IH F).
Qed.

Lemma encode_unreserved (s : string) :
  forallb Uri.unreserved (list_ascii_of_string s) = true -> Uri.encode s = s.
Proof.
  unfold Uri.encode. induction s as [|c s IH]; [reflexivity|].
  cbn [list_ascii_of_string forallb map]. rewrite andb_true_iff. intros [U F].
  specialize (IH F).
  assert (E : Uri.encode_char c = String c "") by (unfold Uri.encode_char; now rewrite U).
  rewrite E. destruct s as [|d s]; [reflexivity|].
  cbn [list_ascii_of_string map concat] in *. now rewrite IH.
Qed.

Lemma simple_parts (kv : string * string) :
  simple kv = true ->
  forallb Uri.unreserved (list_ascii_of_string (fst kv)) = true
  /\ forallb Uri.unreserved (list_ascii_of_string (snd kv)) = true
  /\ Qs.kept (fst kv) = true
  /\ array_index (fst kv) = None.
Proof.
  unfold simple. rewrite !andb_true_iff. intros [[[K V] Q] A].
  repeat split; try assumption. now destruct (array_index (fst kv)).
Qed.

Lemma simple_readable (ps : list (string * string)) :
  forallb simple ps = true -> Forall readable ps.
Proof.
  rewrite forallb_forall. intro S. apply Forall_forall. intros kv I.
  destruct (simple_parts kv (S kv I)) as [K [V [Q _]]].
  repeat split; [now apply unreserved_plain | now apply unreserved_plain | exact Q].
Qed.

Lemma lookup_some_In (ps : list (string * string)) (k : string) :
  In k (map fst ps) <-> lookup ps k <> None.
Proof.
  induction ps as [|[k' v] ps IH]; simpl; [tauto|].
  destruct (String.eqb k k') eqn:E.
  - apply String.eqb_eq in E. subst. split; [discriminate | now left].
  - apply String.eqb_neq in E. rewrite <- IH. split; [intros [->|I]; tauto | now right].
Qed.

(** What [Object.assign({}, qs.parse(...))] holds for simple parameters
    with distinct names: the names, and under each its value. *)
Lemma merged_simple_parameters (ps : list (string * string)) :
  forallb simple ps = true ->
  NoDup (map fst ps) ->
  List.length ps <= Qs.parameterLimit ->
  let queryMerged := Object_assign [] (Qs.parse (Some (query_string ps))) in
  NoDup (Object_keys queryMerged)
  /\ Permutation (Object_keys queryMerged) (map fst ps)
  /\ forall k, get queryMerged k = option_map VStr (lookup ps k).
Proof.
  intros S N L queryMerged.
  assert (G : forall k, get queryMerged k = option_map VStr (lookup ps k)).
  { intro k. unfold queryMerged. rewrite get_Object_assign.
    pose proof (get_parse_query_string ps k (simple_readable ps S) N L) as P.
    destruct (has _ k) eqn:H.
    - unfold prop. rewrite P. apply get_has in H. rewrite P in H.
      now destruct (lookup ps k).
    - apply get_none in H. now rewrite <- P, H. }
  assert (D : NoDup (Object_keys queryMerged)).
  { apply NoDup_keys_Object_assign. constructor. }
  split; [exact D|]. split; [|exact G].
  apply NoDup_Permutation; [exact D | exact N|].
  intro k. rewrite In_keys_get, G, lookup_some_In.
  destruct (lookup ps k); simpl; split; congruence.
Qed.

Lemma stringify_simple (ps : list (string * string)) :
  forallb simple ps = true ->
  Qs.stringify (map (fun kv => (fst kv, VStr (snd kv))) ps) = query_string ps.
Proof.
  intro S. unfold Qs.stringify, query_string. f_equal.
  induction ps as [|[k v] ps IH]; [reflexivity|].
  cbn [forallb] in S. apply andb_true_iff in S as [Skv S].
  destruct (simple_parts _ Skv) as [K [V _]]. cbn [fst snd] in K, V.
  cbn [map flat_map Qs.stringify_value fst snd app]. unfold Qs.pair.
  now rewrite (encode_unreserved k K), (encode_unreserved v V), (IH S).
Qed.

Lemma by_name_names (ps : list (string * string)) : map fst (by_name ps) = sort (map fst ps).
Proof. unfold by_name. rewrite map_map. apply map_id. Qed.

Lemma by_name_In (ps : list (string * string)) (k v : string) :
  NoDup (map fst ps) -> In (k, v) (by_name ps) <-> In (k, v) ps.
Proof.
  intro N. unfold by_name. rewrite in_map_iff. split.
  - intros [k' [[= -> <-] I]]. apply (proj1 (In_sort _ _)) in I.
    apply lookup_some_In in I. destruct (lookup ps k) as [v|] eqn:E; [|congruence].
    now apply lookup_In.
  - intro I. exists k. apply (lookup_In ps k v N) in I as E. rewrite E.
    split; [reflexivity|]. apply In_sort, lookup_some_In. congruence.
Qed.

(** [by_name] rearranges the parameters, and sorts their names. *)
Lemma by_name_sorts (ps : list (string * string)) :
  NoDup (map fst ps) ->
  Permutation (by_name ps) ps /\ StronglySorted le_string (map fst (by_name ps)).
Proof.
  intro N. split; [|rewrite by_name_names; apply sort_sorted].
  assert (N' : NoDup (map fst (by_name ps))).
  { rewrite by_name_names. apply (Permutation_NoDup (Permutation_sym (sort_perm _)) N). }
  apply NoDup_Permutation.
  - now apply (NoDup_map_inv fst).
  - now apply (NoDup_map_inv fst).
  - intros [k v]. now apply by_name_In.
Qed.

Lemma by_name_simple (ps : list (string * string)) :
  NoDup (map fst ps) -> forallb simple ps = true -> forallb simple (by_name ps) = true.
Proof.
  intros N S. rewrite forallb_forall in *. intros [k v] I. apply S. now apply by_name_In.
Qed.

(** The canonical query of simple parameters with distinct names. *)
Lemma sortedQuery_of_simple (ps : list (string * string)) :
  forallb simple ps = true ->
  NoDup (map fst ps) ->
  List.length ps <= Qs.parameterLimit ->
  sortedQuery_of (Object_assign [] (Qs.parse (Some (query_string ps))))
  = map (fun kv => (fst kv, VStr (snd kv))) (by_name ps).
Proof.
  intros S N L.
  destruct (merged_simple_parameters ps S N L) as [D [P G]].
  set (queryMerged := Object_assign [] (Qs.parse (Some (query_string ps)))) in *.
  rewrite sortedQuery_of_plain; [|exact D|].
  - rewrite (sort_Permutation _ _ P). unfold by_name. rewrite map_map.
    apply map_ext_in. intros k I. cbn [fst snd]. f_equal.
    unfold prop. rewrite G. apply (proj1 (In_sort _ _)) in I.
    apply lookup_some_In in I. now destruct (lookup ps k).
  - intros k I. apply (Permutation_in _ P) in I. apply in_map_iff in I as [[k' v] [<- I]].
    rewrite forallb_forall in S. now destruct (simple_parts _ (S _ I)) as [_ [_ [_ A]]].
Qed.

(** Signing a path that carries simple parameters with distinct names,
    with an empty [query] object. *)
Lemma signed_simple_path
      (config : Config) (env : Env) (uri method : string) (ps : list (string * string))
      (headers : object) (query : loc) (body : value) (w : World) :
  avoids "?" uri = true ->
  forallb simple ps = true ->
  NoDup (map fst ps) ->
  List.length ps <= Qs.parameterLimit ->
  deref_in (heap w) query = [] ->
  exists s,
    fst (getRequestSign node config env (uri ++ "?" ++ query_string ps)
                        method headers query body w) = Return s
    /\ sg_path s = url_of uri (query_string (by_name ps)).
Proof.
  intros U S N L E.
  pose proof (simple_readable ps S) as R.
  assert (Q : avoids "?" (query_string ps) = true)
    by (apply query_string_avoids; [reflexivity | reflexivity | reflexivity | exact R]).
  destruct (path_with_query uri (query_string ps) U Q) as [Pu Pq].
  pose proof (by_name_simple ps N S) as S'.
  assert (D : Uri.decode (query_string (by_name ps)) = Some (query_string (by_name ps))).
  { apply decode_without_percent, query_string_avoids;
      [reflexivity | reflexivity | reflexivity | now apply simple_readable]. }
  destruct (JSON_stringify_or_empty body) as [json J].
  rewrite getRequestSign_run. cbv zeta. rewrite Pu, Pq, E.
  cbn [qs_parse qs_stringify decodeURIComponent node].
  rewrite (sortedQuery_of_simple ps S N L), (stringify_simple _ S'), D, J.
  eexists. split; reflexivity.
Qed.

(** X24: on the platform model, a path that carries simple parameters with
    distinct names (names and values of unreserved characters, names that
    [qs] keeps and that are no array index), signed with an empty [query]
    object, comes back as the part before the [?] followed by the same
    parameters in the sorted order of their names. *)
Theorem canonical_path_lists_the_parameters_by_name
        (config : Config) (env : Env) (uri method : string) (ps : list (string * string))
        (headers : object) (query : loc) (body : value) (w : World) :
  avoids "?" uri = true ->
  forallb simple ps = true ->
  NoDup (map fst ps) ->
  List.length ps <= Qs.parameterLimit ->
  deref_in (heap w) query = [] ->
  exists s,
    fst (getRequestSign node config env (uri ++ "?" ++ query_string ps)
                        method headers query body w) = Return s
    /\ sg_path s = url_of uri (query_string (by_name ps))
    /\ Permutation (by_name ps) ps
    /\ StronglySorted le_string (map fst (by_name ps)).
Proof.
  intros U S N L E.
  destruct (signed_simple_path config env uri method ps headers query body w U S N L E)
    as [s [R P]].
  destruct (by_name_sorts ps N) as [Perm Sorted].
  exists s. repeat split; assumption.
Qed.

Lemma sort_sort (l : list string) : sort (sort l) = sort l.
Proof. apply sort_Permutation, sort_perm. Qed.

Lemma by_name_by_name (ps : list (string * string)) :
  NoDup (map fst ps) -> by_name (by_name ps) = by_name ps.
Proof.
  intro N. destruct (by_name_sorts ps N) as [P _].
  unfold by_name at 1 3. rewrite by_name_names, sort_sort.
  apply map_ext. intro k. f_equal.
  rewrite (lookup_Permutation (by_name ps) ps k); [reflexivity| |exact P].
  rewrite by_name_names. apply (Permutation_NoDup (Permutation_sym (sort_perm _)) N).
Qed.

(** Two runs of [getRequestSign] from one state, for one method and body,
    that return the same path return the same headers. *)
Lemma same_path_same_headers
      (platform : Platform) (config : Config) (env : Env)
      (path1 path2 method : string) (headers : object) (query1 query2 : loc) (body : value)
      (w1 w2 : World) (s1 s2 : Signed) :
  token w1 = token w2 ->
  reads w1 = reads w2 ->
  fst (getRequestSign platform config env path1 method headers query1 body w1) = Return s1 ->
  fst (getRequestSign platform config env path2 method headers query2 body w2) = Return s2 ->
  sg_path s1 = sg_path s2 ->
  s1 = s2.
Proof.
  intros T R. rewrite !getRequestSign_run. cbv zeta. rewrite T, R.
  destruct (decodeURIComponent platform _) as [q1|]; [|discriminate].
  destruct (decodeURIComponent platform _) as [q2|]; [|discriminate].
  destruct (JSON_stringify (or_empty body)); [|discriminate].
  cbn [fst]. intros [= <-] [= <-]. cbn [sg_path]. now intros ->.
Qed.

(** X25: on the platform model, the path [getRequestSign] returns for
    simple parameters with distinct names is a fixed point: signed again,
    from the same state, it comes back unchanged, with the same headers. *)
Theorem canonical_path_is_a_fixed_point
        (config : Config) (env : Env) (uri method : string) (ps : list (string * string))
        (headers : object) (query : loc) (body : value) (w : World) (s : Signed) :
  avoids "?" uri = true ->
  forallb simple ps = true ->
  NoDup (map fst ps) ->
  List.length ps <= Qs.parameterLimit ->
  deref_in (heap w) query = [] ->
  fst (getRequestSign node config env (uri ++ "?" ++ query_string ps)
                      method headers query body w) = Return s ->
  fst (getRequestSign node config env (sg_path s) method headers query body w) = Return s.
Proof.
  intros U S N L E R.
  destruct (signed_simple_path config env uri method ps headers query body w U S N L E)
    as [s0 [R0 P0]].
  assert (s0 = s) by congruence. subst s0.
  assert (N' : NoDup (map fst (by_name ps))).
  { rewrite by_name_names. apply (Permutation_NoDup (Permutation_sym (sort_perm _)) N). }
  assert (L' : List.length (by_name ps) <= Qs.parameterLimit).
  { unfold by_name. rewrite length_map, (Permutation_length (sort_perm _)), length_map.
    exact L. }
  destruct (signed_simple_path config env uri method (by_name ps) headers query body w
              U (by_name_simple ps N S) N' L' E) as [s1 [R1 P1]].
  rewrite (by_name_by_name ps N) in P1.
  assert (X : exists s2, fst (getRequestSign node config env (sg_path s) method headers
                                             query body w) = Return s2
                         /\ sg_path s2 = sg_path s).
  { rewrite P0. unfold url_of at 1.
    destruct (truthy (query_string (by_name ps))) eqn:T.
    - exists s1. split; [exact R1 | congruence].
    - assert (Z : query_string (by_name ps) = "")
        by (destruct (query_string (by_name ps)); [reflexivity | discriminate]).
      destruct (path_without_query uri U) as [Pu Pq].
      destruct (JSON_stringify_or_empty body) as [json J].
      rewrite getRequestSign_run. cbv zeta. rewrite Pu, Pq, E, J.
      eexists. split; [reflexivity|]. cbn [sg_path]. unfold url_of. now rewrite Z. }
  destruct X as [s2 [R2 P2]]. rewrite R2. f_equal.
  exact (same_path_same_headers node config env _ _ method headers query query body w w
                                s2 s eq_refl eq_refl R2 R P2).
Qed.

(* ================================================================== *)
(** * Test vectors and worked examples *)

Example sha256_empty :
  sha256_hex "" = "e3b0c44298fc1c149afbf4c8996fb92427ae41e4649b934ca495991b7852b855".
Proof. vm_compute. reflexivity. Qed.

Example sha256_abc :
  sha256_hex "abc" = "ba7816bf8f01cfea414140de5dae2223b00361a396177a9cb410ff61f20015ad".
Proof. vm_compute. reflexivity. Qed.

Example sha256_two_blocks :
  sha256_hex "abcdbcdecdefdefgefghfghighijhijkijkljklmklmnlmnomnopnopq"
  = "248d6a61d20638b8e5c026930c3e6039a33ce45964ff2167f6ecedd419db06c1".
Proof. vm_compute. reflexivity. Qed.

Example hmac_rfc4231_case2 :
  hmac_sha256_hex "Jefe" "what do ya want for nothing?"
  = "5bdcc146bf60754e6a042426089575c75a003f089d2739839dec58b964ec3843".
Proof. vm_compute. reflexivity. Qed.

Example stringify_empty_object : JSON_stringify (VObj []) = Some "{}".
Proof. reflexivity. Qed.

Example stringify_command :
  JSON_stringify
    (VObj [("commands", VArr [VObj [("code", VStr "bright_value_v2"); ("value", VNum 500)]])])
  = Some ("{" ++ DQUOTE ++ "commands" ++ DQUOTE ++ ":[{"
              ++ DQUOTE ++ "code" ++ DQUOTE ++ ":" ++ DQUOTE ++ "bright_value_v2" ++ DQUOTE ++ ","
              ++ DQUOTE ++ "value" ++ DQUOTE ++ ":500}]}").
Proof. reflexivity. Qed.

Example keys_enumeration_order :
  Object_keys (set (set (set (set [] "b" VNull) "10" VNull) "a" VNull) "9" VNull)
  = ["9"; "10"; "b"; "a"].
Proof. reflexivity. Qed.

Example sort_is_by_code_units : sort ["b"; "10"; "a"; "9"; "B"] = ["10"; "9"; "B"; "a"; "b"].
Proof. reflexivity. Qed.

Example split_examples :
  split "?" "/x?a=1?b" = ["/x"; "a=1"; "b"] /\ split "?" "/x" = ["/x"] /\ split "?" "" = [""].
Proof. repeat split. Qed.

Example qs_parse_two : Qs.parse (Some "b=2&a=1") = [("b", VStr "2"); ("a", VStr "1")].
Proof. reflexivity. Qed.

Example qs_parse_odd :
  Qs.parse (Some "a=1&&=5&c&a=x+y&toString=3&d=%41%zz")
  = [("a", VArr [VStr "1"; VStr "x y"]); ("c", VStr ""); ("d", VStr "%41%zz")]
  /\ Qs.parse None = [] /\ Qs.parse (Some "") = [].
Proof. repeat split. Qed.

Example qs_stringify_mixed :
  Qs.stringify [("a", VArr [VStr "1"; VStr "x y"]); ("c", VStr ""); ("d", VStr "a/b")]
  = "a%5B0%5D=1&a%5B1%5D=x%20y&c=&d=a%2Fb".
Proof. reflexivity. Qed.

Example decode_examples :
  Uri.decode "a%5B0%5D=x%20y" = Some "a[0]=x y"
  /\ Uri.decode "100%" = None
  /\ Uri.decode "%C3%A9" = Some (String (ascii_of_nat 195) (String (ascii_of_nat 169) ""))
  /\ Uri.decode "%C3x" = None
  /\ Uri.decode "%ED%A0%80" = None.
Proof. repeat split. Qed.

(** The scenario of a brightness request on a held token. *)
Example brightness_500 :
  post_device_brightness node demo_config granting (Some 500%Q) held
  = (Return {| res_status := 200; res_success := true;
               res_message := "Brillo cambiado exitosamente" |},
     {| token := "token-0"; heap := [[]]; reads := 1;
        trace :=
          [ Enter_getRequestSign;
            Sent {| req_method := "POST";
                    req_url := "/v1.0/devices/device-1/commands";
                    req_headers :=
                      [ ("t", "1700000000000");
                        ("path", "/v1.0/devices/device-1/commands");
                        ("client_id", "access-key");
                        ("sign", "F42569EA063E84172CEF8AE22ADC30A8FD45BEC6B2862D2EDA73A108F7E8CEE2");
                        ("sign_method", "HMAC-SHA256");
                        ("access_token", "token-0") ];
                    req_data := Some (command_body "bright_value_v2" (VNum 500)) |} ] |}).
Proof. vm_compute. reflexivity. Qed.

(** The scenario of a cold start: the token is fetched first. *)
Example cold_start_fetches_token :
  token (snd (controlDevice node demo_config granting "device-1" "switch_led" (VBool true) cold))
  = "token-1"
  /\ exchanges (trace (snd (controlDevice node demo_config granting
                                          "device-1" "switch_led" (VBool true) cold))) = 1.
Proof. vm_compute. split; reflexivity. Qed.

(* ================================================================== *)
(** * The properties at concrete inputs *)

(** C1, the claim as it was written, at [path = '/x?a=1'] and
    [query = {a: '2'}]: the canonical query has [a=1], the value from the
    path, and not the explicit [2]. *)
Lemma explicit_parameter_loses :
  get [("a", VStr "2")] "a" = Some (VStr "2")
  /\ get (qs_parse node (pathQuery_of "/x?a=1")) "a" = Some (VStr "1")
  /\ get (sortedQuery_of
            (Object_assign [("a", VStr "2")] (qs_parse node (pathQuery_of "/x?a=1")))) "a"
     <> Some (VStr "2")
  /\ exists s,
       fst (getRequestSign node demo_config granting "/x?a=1" "GET" [] 0 (VObj [])
                           (with_query [("a", VStr "2")])) = Return s
       /\ sg_path s = "/x?a=1".
Proof.
  split; [reflexivity|]. split; [reflexivity|]. split.
  - vm_compute. discriminate.
  - eexists. split; [vm_compute; reflexivity | reflexivity].
Qed.

(** C1 as amended, at the same input: the value from the path is the one
    in the canonical query. *)
Lemma path_parameter_wins_at_a :
  get (qs_parse node (pathQuery_of "/x?a=1")) "a" = Some (VStr "1")
  /\ get (sortedQuery_of
            (Object_assign [("a", VStr "2")] (qs_parse node (pathQuery_of "/x?a=1")))) "a"
     = Some (VStr "1").
Proof.
  split; [reflexivity|].
  apply (path_parameter_wins node demo_config granting "/x?a=1" "GET" [] 0 (VObj [])
                             (with_query [("a", VStr "2")]) "a" (VStr "1")).
  reflexivity.
Defined.

(** C2 at its failing input, [getDeviceInfo('device-1')] with a token
    held: the request goes out without a body, and the content hash that
    was signed is the SHA-256 of the two characters of [{}], not the
    SHA-256 of the empty string that [getToken] signs for its own
    body-less GET. *)
Theorem getDeviceInfo_signs_hash_of_braces :
  trace (snd (getDeviceInfo node demo_config granting "device-1" held))
  = [ Enter_getRequestSign;
      Sent {| req_method := "GET";
              req_url := "/v1.0/devices/device-1";
              req_headers :=
                [ ("t", "1700000000000");
                  ("path", "/v1.0/devices/device-1");
                  ("client_id", "access-key");
                  ("sign",
                   encryptStr
                     ("access-key" ++ "token-0" ++ "1700000000000"
                        ++ join LF ["GET"; sha256_hex "{}"; ""; "/v1.0/devices/device-1"])
                     "secret-key");
                  ("sign_method", "HMAC-SHA256");
                  ("access_token", "token-0") ];
              req_data := None |} ]
  /\ sha256_hex "{}" = "44136fa355b3678a1146ad16f7e8649e94fb4fc21fe77e8310c060f61caaff8a"
  /\ sha256_hex "" = "e3b0c44298fc1c149afbf4c8996fb92427ae41e4649b934ca495991b7852b855"
  /\ encryptStr
       ("access-key" ++ "token-0" ++ "1700000000000"
          ++ join LF ["GET"; sha256_hex "{}"; ""; "/v1.0/devices/device-1"]) "secret-key"
     <> encryptStr
          ("access-key" ++ "token-0" ++ "1700000000000"
             ++ join LF ["GET"; sha256_hex ""; ""; "/v1.0/devices/device-1"]) "secret-key".
Proof.
  repeat split; try (vm_compute; reflexivity).
  vm_compute. discriminate.
Qed.

(** C3 at [path = '/x?b=2&a=1'], method GET, the default body and
    [token-0]: the canonical query decodes to [a=1&b=2]. *)
Lemma signature_is_uppercase_hmac_at_x :
  decodeURIComponent node
    (qs_stringify node
       (sortedQuery_of (Object_assign [] (qs_parse node (pathQuery_of "/x?b=2&a=1")))))
  = Some "a=1&b=2"
  /\ exists s json,
       fst (getRequestSign node demo_config granting "/x?b=2&a=1" "GET" [] 0 (VObj [])
                           (with_query [])) = Return s
       /\ JSON_stringify (or_empty (VObj [])) = Some json
       /\ sg_path s = url_of (uri_of "/x?b=2&a=1") "a=1&b=2"
       /\ sg_t s = string_of_N (Date_now granting (reads (with_query [])))
       /\ sg_access_token s = token (with_query [])
       /\ sg_sign s
          = toUpperCase
              (hmac_sha256_hex (secretKey demo_config)
                 (accessKey demo_config ++ token (with_query []) ++ sg_t s
                    ++ "GET" ++ LF ++ sha256_hex json ++ LF ++ "" ++ LF ++ sg_path s)).
Proof.
  split; [reflexivity|].
  apply (signature_is_uppercase_hmac node demo_config granting "/x?b=2&a=1" "GET" [] 0
                                     (VObj []) (with_query []) "a=1&b=2").
  reflexivity.
Defined.

(** The headers of that run: the canonical path and the signature. *)
Example signed_headers_at_x :
  fst (getRequestSign node demo_config granting "/x?b=2&a=1" "GET" [] 0 (VObj [])
                      (with_query []))
  = Return {| sg_t := "1700000000000";
              sg_path := "/x?a=1&b=2";
              sg_client_id := "access-key";
              sg_sign := "1C0AA3F9D7DA076C4DBDFC5CB9E89EE990A4B4F52F938D0210359E6733DC8EFC";
              sg_sign_method := "HMAC-SHA256";
              sg_access_token := "token-0" |}.
Proof. vm_compute. reflexivity. Qed.

(** C4 at the first clock reading: holding [token-0] or holding nothing,
    [getToken] sends the same request. *)
Lemma token_signature_at_cold_start :
  trace (snd (getToken demo_config granting (with_token "token-0" cold)))
  = trace (snd (getToken demo_config granting (with_token "" cold))).
Proof. apply (token_signature_ignores_held_token demo_config granting cold "token-0"). Defined.

(** That request, with its signature. *)
Example token_request_at_cold_start :
  trace (snd (getToken demo_config granting held))
  = [ Enter_getToken;
      Sent {| req_method := "GET";
              req_url := "/v1.0/token?grant_type=1";
              req_headers :=
                [ ("t", "1700000000000");
                  ("sign_method", "HMAC-SHA256");
                  ("client_id", "access-key");
                  ("sign", "F5A15266C139428A1E3D9FAD4225F3D8A476CF20303B57855080030683E3A420") ];
              req_data := None |} ].
Proof. vm_compute. reflexivity. Qed.

(** C5, the claim as it was written, at ['/x?a=1&a=2'] and ['/x?a=2&a=1']:
    the same two parameters in the other order.  [qs] collects the values
    of a repeated name in an array, in their order in the path, so the
    canonical paths differ, and the signatures with them. *)
Lemma repeated_name_order_changes_signature :
  fst (getRequestSign node demo_config granting "/x?a=1&a=2" "GET" [] 0 (VObj [])
                      (with_query []))
  = Return {| sg_t := "1700000000000";
              sg_path := "/x?a[0]=1&a[1]=2";
              sg_client_id := "access-key";
              sg_sign := "150049D60DD4B4F132B41564A05956B563A185D6115E7286D1EE24A359D1E842";
              sg_sign_method := "HMAC-SHA256";
              sg_access_token := "token-0" |}
  /\ fst (getRequestSign node demo_config granting "/x?a=2&a=1" "GET" [] 0 (VObj [])
                         (with_query []))
     = Return {| sg_t := "1700000000000";
                 sg_path := "/x?a[0]=2&a[1]=1";
                 sg_client_id := "access-key";
                 sg_sign := "2ED156BA6FE9247B7A46CE26EDF2A2E44E8295477CAC527BDF771611E3A8AF94";
                 sg_sign_method := "HMAC-SHA256";
                 sg_access_token := "token-0" |}
  /\ fst (getRequestSign node demo_config granting "/x?a=1&a=2" "GET" [] 0 (VObj [])
                         (with_query []))
     <> fst (getRequestSign node demo_config granting "/x?a=2&a=1" "GET" [] 0 (VObj [])
                            (with_query [])).
Proof.
  split; [vm_compute; reflexivity|]. split; [vm_compute; reflexivity|].
  vm_compute. discriminate.
Qed.

(** C5 as amended, at the example of the specification:
    [sign(path='/x?b=2&a=1')] is [sign(path='/x?a=1&b=2')]. *)
Lemma parameter_order_b2a1_a1b2 :
  fst (getRequestSign node demo_config granting "/x?b=2&a=1" "GET" [] 0 (VObj [])
                      (with_query []))
  = fst (getRequestSign node demo_config granting "/x?a=1&b=2" "GET" [] 0 (VObj [])
                        (with_query [])).
Proof.
  apply (proj2 signature_ignores_parameter_order demo_config granting "/x"
               [("b", "2"); ("a", "1")] [("a", "1"); ("b", "2")]).
  - reflexivity.
  - repeat constructor.
  - repeat constructor; simpl; intuition discriminate.
  - simpl. unfold Qs.parameterLimit. lia.
  - apply perm_swap.
  - constructor.
Defined.

(** C6 with [token-0] held. *)
Lemma preset_red_on_held_token :
  snd (post_device_color_preset node demo_config granting (VStr "red") held)
  = snd (post_device_color_hsv node demo_config granting
                               (Some 0%Q) (Some 1000%Q) (Some 1000%Q) held).
Proof. apply (preset_red_is_hsv_0_1000_1000 node demo_config granting held). Defined.

(** The request both routes send. *)
Example preset_red_request :
  trace (snd (post_device_color_preset node demo_config granting (VStr "red") held))
  = [ Enter_getRequestSign;
      Sent {| req_method := "POST";
              req_url := "/v1.0/devices/device-1/commands";
              req_headers :=
                [ ("t", "1700000000000");
                  ("path", "/v1.0/devices/device-1/commands");
                  ("client_id", "access-key");
                  ("sign", "6A7891F539E4C754D7EAF2F0C8B024C86282AF1A6CCFFCE129287DC767B2B7A5");
                  ("sign_method", "HMAC-SHA256");
                  ("access_token", "token-0") ];
              req_data := Some (command_body "colour_data_v2" (hsv 0 1000 1000)) |} ].
Proof. vm_compute. reflexivity. Qed.

(** C7 at [controlDevice('device-1', 'switch_led', true)] with [token-0]
    held. *)
Lemma held_token_device_on :
  token held <> ""
  /\ ensureToken demo_config granting held = (Return tt, held)
  /\ exchanges (trace (snd (controlDevice node demo_config granting
                                          "device-1" "switch_led" (VBool true) held)))
     = exchanges (trace held).
Proof.
  assert (H : token held <> "") by discriminate.
  split; [exact H|].
  pose proof (held_token_needs_no_exchange node demo_config granting held
                                           "device-1" "switch_led" (VBool true) H) as T.
  split; [exact (proj1 T) | exact (proj1 (proj2 T))].
Defined.

(** C8 at the two scenarios of the specification: brightness 5000, and
    [{h: 400, s: 500, v: 500}]. *)
Lemma brightness_5000_and_hue_400 :
  (exists res, post_device_brightness node demo_config granting (Some 5000%Q) cold
               = (Return res, cold) /\ res_status res = 400)
  /\ (exists res, post_device_color_hsv node demo_config granting
                                        (Some 400%Q) (Some 500%Q) (Some 500%Q) cold
                  = (Return res, cold) /\ res_status res = 400).
Proof.
  pose proof (out_of_range_is_rejected_untouched node demo_config granting cold) as [B H].
  split.
  - apply B. right. reflexivity.
  - apply H. left. right. reflexivity.
Defined.

(** C9 against a provider that answers [success: false], with [token-0]
    held. *)
Lemma refused_exchange_keeps_token_0 :
  exchange_fails demo_config refusing held
  /\ token (snd (getToken demo_config refusing held)) = "token-0"
  /\ token (snd (refresh_tick demo_config refusing held)) = "token-0".
Proof.
  assert (F : exchange_fails demo_config refusing held) by reflexivity.
  split; [exact F|].
  pose proof (failed_exchange_keeps_token demo_config refusing held F) as T.
  split; [exact (proj1 (proj2 T)) | exact (proj1 (proj2 (proj2 (proj2 T))))].
Defined.

(** The same against a provider that cannot be reached. *)
Example timeout_keeps_token_0 :
  fst (getToken demo_config unreachable held) = Throw (AxiosError "timeout of 10000ms exceeded")
  /\ token (snd (getToken demo_config unreachable held)) = "token-0".
Proof. split; reflexivity. Qed.

(** C10, the claim as it was written, at [path = '/x?a=1'] and
    [query = {a: '1'}]: the path has a query string, and the caller's
    object is after the call what it was before. *)
Lemma query_holding_the_parameter_is_unchanged :
  pathQuery_of "/x?a=1" = Some "a=1"
  /\ deref_in (heap (snd (getRequestSign node demo_config granting "/x?a=1" "GET" [] 0
                                         (VObj []) (with_query [("a", VStr "1")])))) 0
     = deref_in (heap (with_query [("a", VStr "1")])) 0.
Proof. split; reflexivity. Qed.

(** C10 as amended, at [path = '/x?a=1'] and the query [{}]. *)
Lemma empty_query_is_written :
  0 < List.length (heap (with_query []))
  /\ deref_in (heap (snd (getRequestSign node demo_config granting "/x?a=1" "GET" [] 0
                                         (VObj []) (with_query [])))) 0
     = Object_assign (deref_in (heap (with_query [])) 0)
                     (qs_parse node (pathQuery_of "/x?a=1")).
Proof.
  assert (L : 0 < List.length (heap (with_query []))) by (simpl; lia).
  split; [exact L|].
  exact (proj1 (query_argument_is_written node demo_config granting "/x?a=1" "GET" [] 0
                                          (VObj []) (with_query []) L)).
Defined.

(** The caller's object after that call. *)
Example empty_query_after_the_call :
  deref_in (heap (snd (getRequestSign node demo_config granting "/x?a=1" "GET" [] 0
                                      (VObj []) (with_query [])))) 0
  = [("a", VStr "1")].
Proof. reflexivity. Qed.

(* ================================================================== *)
(** * The further properties at concrete inputs *)

(** Of 1001 parameters [qs.parse] reads the first thousand: [z] is dropped
    when it comes last and read when it comes first. *)
Example parameter_limit_drops_the_last :
  get (qs_parse node (Some (query_string (numbered 1000 ++ [("z", "1")])))) "z" = None
  /\ get (qs_parse node (Some (query_string (("z", "1") :: numbered 1000)))) "z"
     = Some (VStr "1").
Proof. vm_compute. split; reflexivity. Qed.

(** No token held and a provider that refuses the exchange: switching the
    light on throws after the exchange and sends nothing else. *)
Lemma cold_start_on_a_refusing_provider :
  exists e,
    fst (getToken demo_config refusing cold) = Throw e
    /\ controlDevice node demo_config refusing "device-1" "switch_led" (VBool true) cold
       = (Throw e, snd (getToken demo_config refusing cold))
    /\ getDeviceInfo node demo_config refusing "device-1" cold
       = (Throw e, snd (getToken demo_config refusing cold))
    /\ trace (snd (getToken demo_config refusing cold))
       = [Enter_getToken; Sent (token_request demo_config "1700000000000")]
    /\ token (snd (getToken demo_config refusing cold)) = "".
Proof.
  apply (cold_start_failure_reaches_no_device node demo_config refusing
           "device-1" "switch_led" (VBool true) cold); reflexivity.
Defined.

(** No token held and a provider that grants [token-1]. *)
Lemma cold_start_on_a_granting_provider :
  token (snd (getToken demo_config granting cold)) = "token-1"
  /\ controlDevice node demo_config granting "device-1" "switch_led" (VBool true) cold
     = controlDevice node demo_config granting "device-1" "switch_led" (VBool true)
                     (snd (getToken demo_config granting cold))
  /\ getDeviceInfo node demo_config granting "device-1" cold
     = getDeviceInfo node demo_config granting "device-1"
                     (snd (getToken demo_config granting cold)).
Proof.
  apply (cold_call_is_exchange_then_held_call node demo_config granting
           "device-1" "switch_led" (VBool true) cold "token-1");
    [reflexivity | reflexivity | discriminate].
Defined.


(** Switching the light on with [token-0] held, the provider granting. *)
Lemma device_on_answers_200_on_success :
  exists tr r d,
    trace (snd (handle node demo_config granting POST_device_on held)) = (tr ++ [Sent r])%list
    /\ upstream granting tr r = Answered (Some d)
    /\ success d = true.
Proof.
  apply (status_200_means_provider_success
           node demo_config granting POST_device_on held
           {| res_status := 200; res_success := true;
              res_message := "Dispositivo encendido" |});
    [vm_compute; reflexivity | reflexivity].
Defined.

(** A brightness of 499.5 is sent as 500; a temperature of 0.4 as 0. *)
Lemma brightness_499_5_is_sent_as_500 :
  Math_round (999 # 2) = 500%Z
  /\ snd (post_device_brightness node demo_config granting (Some (999 # 2)%Q) held)
     = snd (controlDevice node demo_config granting "device-1" "bright_value_v2"
                          (VNum (Math_round (999 # 2))) held).
Proof.
  split; [reflexivity|].
  apply (accepted_values_are_forwarded_in_range node demo_config granting held).
  split; discriminate.
Defined.

(** A temperature of 1001 and the mode [White] are refused. *)
Lemma temperature_1001_and_mode_White :
  (exists res, post_device_temperature node demo_config granting (Some 1001%Q) cold
               = (Return res, cold) /\ res_status res = 400)
  /\ (exists res, post_device_mode node demo_config granting (Some "White") cold
                  = (Return res, cold) /\ res_status res = 400).
Proof.
  pose proof (temperature_and_mode_are_checked_first node demo_config granting cold)
    as [T M].
  split.
  - apply T. right. right. reflexivity.
  - apply M. intros m [= <-] I. simpl in I. intuition discriminate.
Defined.

(** [{command: 'switch_led', value: false}] is passed on. *)
Lemma control_with_value_false :
  snd (post_device_control node demo_config granting (Some "switch_led") (VBool false) None
                           held)
  = snd (controlDevice node demo_config granting "device-1" "switch_led" (VBool false) held).
Proof.
  apply (control_route_forwards_every_defined_value node demo_config granting held);
    discriminate.
Defined.

(** The preset [Pink] is [{h: 330, s: 700, v: 1000}]. *)
Lemma preset_Pink_is_hsv_330_700_1000 :
  snd (post_device_color_preset node demo_config granting (VStr "Pink") held)
  = snd (post_device_color_hsv node demo_config granting
                               (Some 330%Q) (Some 700%Q) (Some 1000%Q) held).
Proof.
  apply (every_preset_is_an_hsv_call node demo_config granting "Pink" 330 700 1000 held).
  reflexivity.
Defined.

(** A [.env] without [TUYA_DEVICE_ID]. *)
Lemma start_without_device_id :
  startServer
    (load {| TUYA_HOST := None; TUYA_ACCESS_KEY := Some "access-key";
             TUYA_SECRET_KEY := Some "secret-key"; TUYA_DEVICE_ID := None |})
    granting cold
  = (Return (Exited 1), cold).
Proof.
  apply (startServer_exits_on_missing_credential
           granting
           {| TUYA_HOST := None; TUYA_ACCESS_KEY := Some "access-key";
              TUYA_SECRET_KEY := Some "secret-key"; TUYA_DEVICE_ID := None |}
           cold).
  reflexivity.
Defined.

(** A complete configuration and a provider that grants [token-1]. *)
Lemma start_on_a_granting_provider :
  fst (startServer demo_config granting cold) = Return Listening
  /\ token (snd (startServer demo_config granting cold)) = "token-1".
Proof.
  pose proof (startServer_listens_once_a_token_is_granted demo_config granting cold
                                                          eq_refl) as S.
  apply (proj1 (proj2 (proj2 (proj2 S)))). reflexivity.
Defined.

(** The parameters [b] and [a] come out as [a], [b]. *)
Lemma keys_b_a_come_out_sorted :
  Object_keys (sortedQuery_of [("b", VStr "2"); ("a", VStr "1")]) = ["a"; "b"].
Proof.
  apply (proj1 canonical_query_is_sorted_but_for_indices
               [("b", VStr "2"); ("a", VStr "1")]).
  - repeat constructor; simpl; intuition discriminate.
  - intros k [<-|[<-|[]]]; reflexivity.
  - intros k [<-|[<-|[]]]; reflexivity.
Defined.

(** The three credentials set, the host left to its default. *)
Lemma three_credentials_are_enough :
  validateConfig
    (load {| TUYA_HOST := None; TUYA_ACCESS_KEY := Some "access-key";
             TUYA_SECRET_KEY := Some "secret-key"; TUYA_DEVICE_ID := Some "device-1" |})
  = true
  /\ load {| TUYA_HOST := None; TUYA_ACCESS_KEY := Some "access-key";
             TUYA_SECRET_KEY := Some "secret-key"; TUYA_DEVICE_ID := Some "device-1" |}
     = demo_config.
Proof.
  split; [|reflexivity].
  rewrite (proj1 (validateConfig_needs_the_three_credentials
                    {| TUYA_HOST := None; TUYA_ACCESS_KEY := Some "access-key";
                       TUYA_SECRET_KEY := Some "secret-key";
                       TUYA_DEVICE_ID := Some "device-1" |})).
  reflexivity.
Defined.

(** [/x?a=1?b=2] is signed as [/x?a=1]. *)
Lemma second_query_is_dropped :
  getRequestSign node demo_config granting "/x?a=1?b=2" "GET" [] 0 (VObj []) (with_query [])
  = getRequestSign node demo_config granting "/x?a=1" "GET" [] 0 (VObj []) (with_query []).
Proof.
  apply (path_is_cut_at_the_second_question_mark
           node demo_config granting "/x" "a=1" "b=2" "GET" [] 0 (VObj []) (with_query []));
    reflexivity.
Defined.

(** Switching the light on with [token-0] held: the one request sent. *)
Lemma device_on_is_one_signed_post :
  exists json,
    JSON_stringify (command_body "switch_led" (VBool true)) = Some json
    /\ trace (snd (controlDevice node demo_config granting
                                 "device-1" "switch_led" (VBool true) held))
       = [ Enter_getRequestSign;
           Sent {| req_method := "POST";
                   req_url := "/v1.0/devices/device-1/commands";
                   req_headers :=
                     [ ("t", "1700000000000");
                       ("path", "/v1.0/devices/device-1/commands");
                       ("client_id", "access-key");
                       ("sign",
                        encryptStr
                          ("access-key" ++ "token-0" ++ "1700000000000"
                             ++ join LF ["POST"; sha256_hex json; "";
                                         "/v1.0/devices/device-1/commands"])
                          "secret-key");
                       ("sign_method", "HMAC-SHA256");
                       ("access_token", "token-0") ];
                   req_data := Some (command_body "switch_led" (VBool true)) |} ].
Proof.
  destruct (held_token_command_is_one_signed_post
              node demo_config granting "device-1" "switch_led" (VBool true) held
              eq_refl eq_refl eq_refl) as [json [J [T _]]];
    [discriminate | reflexivity |].
  exists json. split; [exact J | exact T].
Defined.

(** A refresh with [token-0] held and a provider that grants [token-1]. *)
Lemma token_0_is_replaced_by_token_1 :
  fst (getToken demo_config granting held) = Return "token-1"
  /\ token (snd (getToken demo_config granting held)) = "token-1".
Proof.
  pose proof (granted_token_replaces_the_held_one demo_config granting held granted
                "token-1" eq_refl eq_refl eq_refl) as G.
  split; [exact (proj1 G) | exact (proj1 (proj2 G))].
Defined.

(** Switching the light on with no token held changes the token. *)
Lemma device_on_from_cold_takes_the_grant :
  exchanges (trace (snd (handle node demo_config granting POST_device_on cold))) = 1
  /\ exists login,
       exchange_reply demo_config granting cold = Answered (Some login)
       /\ success login = true.
Proof.
  apply (routes_change_the_token_only_after_a_successful_exchange
           node demo_config granting POST_device_on cold).
  intro E. vm_compute in E. discriminate.
Defined.

(** Three requests with [token-0] held. *)
Lemma three_requests_on_token_0 :
  exists answers tail,
    fst (serve node demo_config granting
               [POST_device_on; POST_device_brightness (Some 500%Q); GET_device_info] held)
    = Return answers
    /\ List.length answers = 3
    /\ trace (snd (serve node demo_config granting
                         [POST_device_on; POST_device_brightness (Some 500%Q);
                          GET_device_info] held))
       = tail
    /\ exchanges tail = 0
    /\ token (snd (serve node demo_config granting
                         [POST_device_on; POST_device_brightness (Some 500%Q);
                          GET_device_info] held))
       = "token-0".
Proof.
  destruct (held_token_serves_the_whole_session
              node demo_config granting
              [POST_device_on; POST_device_brightness (Some 500%Q); GET_device_info] held)
    as [answers [tail [R [L [T [X [K _]]]]]]].
  - discriminate.
  - repeat constructor; discriminate.
  - exists answers, tail. repeat split; assumption.
Defined.

(** Asking for the device with [token-0] held: the one request sent. *)
Lemma device_info_is_one_signed_get :
  trace (snd (getDeviceInfo node demo_config granting "device-1" held))
  = [ Enter_getRequestSign;
      Sent {| req_method := "GET";
              req_url := "/v1.0/devices/device-1";
              req_headers :=
                [ ("t", "1700000000000");
                  ("path", "/v1.0/devices/device-1");
                  ("client_id", "access-key");
                  ("sign",
                   encryptStr
                     ("access-key" ++ "token-0" ++ "1700000000000"
                        ++ join LF ["GET"; sha256_hex "{}"; ""; "/v1.0/devices/device-1"])
                     "secret-key");
                  ("sign_method", "HMAC-SHA256");
                  ("access_token", "token-0") ];
              req_data := None |} ].
Proof.
  apply (held_token_query_is_one_signed_get node demo_config granting "device-1" held);
    [reflexivity | reflexivity | reflexivity | discriminate | reflexivity].
Defined.

(** [/x?b=2&a=1] comes back as [/x?a=1&b=2]. *)
Lemma path_x_b2_a1_comes_back_sorted :
  exists s,
    fst (getRequestSign node demo_config granting "/x?b=2&a=1" "GET" [] 0 (VObj [])
                        (with_query [])) = Return s
    /\ sg_path s = "/x?a=1&b=2".
Proof.
  destruct (canonical_path_lists_the_parameters_by_name
              demo_config granting "/x" "GET" [("b", "2"); ("a", "1")] [] 0 (VObj [])
              (with_query [])) as [s [R [P _]]];
    [ reflexivity | reflexivity
    | repeat constructor; simpl; intuition discriminate
    | unfold Qs.parameterLimit; simpl; lia | reflexivity | ].
  exists s. split; [exact R | exact P].
Defined.

(** [/x?a=1&b=2], signed again, is [/x?a=1&b=2] with the same headers. *)
Lemma path_x_a1_b2_is_signed_as_it_is :
  fst (getRequestSign node demo_config granting "/x?a=1&b=2" "GET" [] 0 (VObj [])
                      (with_query []))
  = Return {| sg_t := "1700000000000";
              sg_path := "/x?a=1&b=2";
              sg_client_id := "access-key";
              sg_sign := "1C0AA3F9D7DA076C4DBDFC5CB9E89EE990A4B4F52F938D0210359E6733DC8EFC";
              sg_sign_method := "HMAC-SHA256";
              sg_access_token := "token-0" |}.
Proof.
  apply (canonical_path_is_a_fixed_point
           demo_config granting "/x" "GET" [("b", "2"); ("a", "1")] [] 0 (VObj [])
           (with_query [])
           {| sg_t := "1700000000000";
              sg_path := "/x?a=1&b=2";
              sg_client_id := "access-key";
              sg_sign := "1C0AA3F9D7DA076C4DBDFC5CB9E89EE990A4B4F52F938D0210359E6733DC8EFC";
              sg_sign_method := "HMAC-SHA256";
              sg_access_token := "token-0" |});
    [ reflexivity | reflexivity
    | repeat constructor; simpl; intuition discriminate
    | unfold Qs.parameterLimit; simpl; lia | reflexivity
    | vm_compute; reflexivity ].
Defined.
